(** * movie-sampler: the scrape-and-normalise routines and the record store

    A shallow embedding of [app.py].  Python values decoded from a page's
    linked-data block are an inductive type, exceptions are an error monad,
    the two MongoDB collections are lists of documents held in an explicit
    world that the store operations thread through.

    What the model takes from outside the module:
    - a [str] is a [string], a sequence of code points below 256; in that
      range the decimal digits of [\d] are exactly [0-9];
    - [int] is unbounded ([Z]), and [int(s)] reads any number of digits;
    - a [float] is an IEEE binary64 value ([spec_float]), read and printed
      with correct rounding;
    - [requests], [BeautifulSoup] and [json.loads] are given by what they
      return for a page (type [page]);
    - the MongoDB backend is given by the effect of each command on the
      collections; a command that raises changes nothing; whether a call
      raises, and the random order of [$sample], are inputs (type
      [backend]);
    - the Population collection holds documents with an integer [ID] and a
      string [Movie];
    - Streamlit's result cache around [load_df] is left out: every listing
      queries the collection. *)

From Stdlib Require Import ZArith Lia Ascii String List Sorting.Permutation.
From Stdlib Require Import SpecFloat DecimalString.
From stdpp Require Import base option list gmap strings sorting fin_maps.

Open Scope string_scope.
Open Scope list_scope.
Open Scope stdpp_scope.
Open Scope Z_scope.

(* ===================================================================== *)
(** ** Characters and the fragment of [re] that the module uses *)
(* ===================================================================== *)

Module Re.

Definition code (a : ascii) : Z := Z.of_N (N_of_ascii a).

(** [\d] *)
Definition is_digit (a : ascii) : bool := (48 <=? code a) && (code a <=? 57).

(** [\s], which for [str] patterns is [str.isspace]. *)
Definition is_space (a : ascii) : bool :=
  let c := code a in
  ((9 <=? c) && (c <=? 13)) || ((28 <=? c) && (c <=? 32))
  || (c =? 133) || (c =? 160).

Inductive cls :=
| Digit                 (* \d *)
| NotDigit              (* [^\d] *)
| Space                 (* \s *)
| Lit (c : ascii).      (* a literal character *)

Definition cls_test (cl : cls) (a : ascii) : bool :=
  match cl with
  | Digit => is_digit a
  | NotDigit => negb (is_digit a)
  | Space => is_space a
  | Lit c => Ascii.eqb a c
  end.

(** One item of a pattern: a class taken once, [n] times, or under a greedy
    [*] or [+]. *)
Inductive item :=
| One (cl : cls)
| Times (n : nat) (cl : cls)
| Star (cl : cls)
| Plus (cl : cls).

Definition pattern := list item.

(** Greedy repetition with backtracking: take one more character of the
    class if the rest of the pattern can still match after it, otherwise
    stop here and hand over to the continuation [k].  [acc] is the text
    taken so far.  The result lists the text matched by each item. *)
Fixpoint greedy (cl : cls) (k : string -> option (list string))
    (acc s : string) : option (list string) :=
  match s with
  | String a t =>
      if cls_test cl a then
        match greedy cl k (acc +:+ String a "") t with
        | Some r => Some r
        | None => cons acc <$> k s
        end
      else cons acc <$> k s
  | EmptyString => cons acc <$> k s
  end.

Fixpoint exactly (cl : cls) (n : nat) (k : string -> option (list string))
    (acc s : string) : option (list string) :=
  match n with
  | O => cons acc <$> k s
  | S n' =>
      match s with
      | String a t =>
          if cls_test cl a then exactly cl n' k (acc +:+ String a "") t else None
      | EmptyString => None
      end
  end.

(** Match a pattern at the start of [s]. *)
Fixpoint match_at (p : pattern) (s : string) : option (list string) :=
  match p with
  | [] => Some []
  | One cl :: p' => exactly cl 1 (match_at p') "" s
  | Times n cl :: p' => exactly cl n (match_at p') "" s
  | Star cl :: p' => greedy cl (match_at p') "" s
  | Plus cl :: p' =>
      match s with
      | String a t =>
          if cls_test cl a then greedy cl (match_at p') (String a "") t else None
      | EmptyString => None
      end
  end.

(** [re.match(p, s)] *)
Definition rmatch (p : pattern) (s : string) : option (list string) :=
  match_at p s.

(** [re.search(p, s)]: the match at the leftmost position that has one. *)
Fixpoint search (p : pattern) (s : string) : option (list string) :=
  match match_at p s with
  | Some r => Some r
  | None =>
      match s with
      | String _ t => search p t
      | EmptyString => None
      end
  end.

(** [m.group(1)] for the patterns here, whose group is their first item. *)
Definition group1 (m : list string) : string := hd "" m.

(** [re.sub(cl, "", s)] for a pattern that is a single class: every
    character of the class is replaced by the empty string. *)
Fixpoint sub_cls (cl : cls) (s : string) : string :=
  match s with
  | String a t =>
      if cls_test cl a then sub_cls cl t else String a (sub_cls cl t)
  | EmptyString => EmptyString
  end.

End Re.

(* ===================================================================== *)
(** ** Python values *)
(* ===================================================================== *)

(** What [json.loads] returns: [None], [bool], [int], [float], [str],
    [list] and [dict] (keys in insertion order). *)
#[warnings="-register-all"]
Inductive value :=
| VNone
| VBool (b : bool)
| VInt (z : Z)
| VFloat (f : spec_float)
| VStr (s : string)
| VList (l : list value)
| VDict (o : list (string * value)).

Inductive exn :=
| TypeError | ValueError | AttributeError | OverflowError | KeyError
| HTTPError
| ServerSelectionTimeoutError | ConnectionFailure | AutoReconnect
| NetworkTimeout | ConfigurationError | OperationFailure.

Global Instance exn_eq_dec : EqDecision exn.
Proof. solve_decision. Defined.

Inductive res (A : Type) :=
| Ok (a : A)
| Raise (e : exn).
Arguments Ok {A} a.
Arguments Raise {A} e.

Definition rbind {A B} (m : res A) (f : A -> res B) : res B :=
  match m with
  | Ok a => f a
  | Raise e => Raise e
  end.

(** [int(s)] on a string of decimal digits. *)
Definition digit_val (a : ascii) : Z := Re.code a - 48.

Fixpoint int_digits_from (acc : Z) (s : string) : Z :=
  match s with
  | String a t => int_digits_from (10 * acc + digit_val a) t
  | EmptyString => acc
  end.

Definition int_digits (s : string) : Z := int_digits_from 0 s.

(** [str(z)] for an [int]. *)
Definition str_of_int (z : Z) : string := NilZero.string_of_int (Z.to_int z).

(* ===================================================================== *)
(** ** [str] methods *)
(* ===================================================================== *)

Module Str.

Fixpoint lstrip (sp : ascii -> bool) (s : string) : string :=
  match s with
  | String a t => if sp a then lstrip sp t else s
  | EmptyString => EmptyString
  end.

Fixpoint rstrip (sp : ascii -> bool) (s : string) : string :=
  match s with
  | String a t =>
      match rstrip sp t with
      | EmptyString => if sp a then EmptyString else String a EmptyString
      | t' => String a t'
      end
  | EmptyString => EmptyString
  end.

(** [s.strip()] removes the characters of [str.isspace] at both ends. *)
Definition strip (s : string) : string :=
  rstrip Re.is_space (lstrip Re.is_space s).

(** [s.split(c)] *)
Fixpoint split (c : ascii) (s : string) : list string :=
  match s with
  | EmptyString => [EmptyString]
  | String a t =>
      if Ascii.eqb a c then EmptyString :: split c t
      else match split c t with
           | x :: r => String a x :: r
           | [] => [String a EmptyString]
           end
  end.

Definition nonempty (s : string) : bool := negb (String.eqb s "").

End Str.

(* ===================================================================== *)
(** ** [float]: IEEE binary64, correctly rounded *)
(* ===================================================================== *)

Module Float.

Definition prec : Z := 53.
Definition emax : Z := 1024.

(** The double nearest to [m * 10^e] (ties to even). *)
Definition of_decimal (neg : bool) (m : Z) (e : Z) : spec_float :=
  match m with
  | Zpos p =>
      match e with
      | Zneg q =>
          SFdiv prec emax (S754_finite neg p 0)
                          (S754_finite false (Pos.pow 10 q) 0)
      | _ => binary_normalize prec emax (if neg then - (m * 10 ^ e) else m * 10 ^ e)
                              0 neg
      end
  | _ => S754_zero neg
  end.

(** [float(z)] for an [int]: [OverflowError] when [z] is too large. *)
Definition of_int (z : Z) : res spec_float :=
  match binary_normalize prec emax z 0 false with
  | S754_infinity _ => Raise OverflowError
  | f => Ok f
  end.

(** Whitespace that [float] strips around its argument. *)
Definition is_float_space (a : ascii) : bool :=
  let c := Re.code a in
  ((9 <=? c) && (c <=? 13)) || (c =? 32) || (c =? 133) || (c =? 160).

(** Underscores may only stand between two digits; they are dropped. *)
Fixpoint drop_underscores (prev : option ascii) (s : string) : option string :=
  match s with
  | String a t =>
      if Ascii.eqb a "_" then
        match prev with
        | Some p => if Re.is_digit p then drop_underscores (Some a) t else None
        | None => None
        end
      else
        let after_us := match prev with
                        | Some p => Ascii.eqb p "_"
                        | None => false
                        end in
        if after_us && negb (Re.is_digit a) then None
        else String a <$> drop_underscores (Some a) t
  | EmptyString =>
      match prev with
      | Some p => if Ascii.eqb p "_" then None else Some EmptyString
      | None => Some EmptyString
      end
  end.

(** The maximal run of digits at the start of a string, and what follows. *)
Fixpoint span_digits (s : string) : string * string :=
  match s with
  | String a t =>
      if Re.is_digit a then
        let '(ds, rest) := span_digits t in (String a ds, rest)
      else (EmptyString, s)
  | EmptyString => (EmptyString, EmptyString)
  end.

Definition lower (a : ascii) : ascii :=
  let c := Re.code a in
  if (65 <=? c) && (c <=? 90) then ascii_of_N (Z.to_N (c + 32)) else a.

Fixpoint lower_str (s : string) : string :=
  match s with
  | String a t => String (lower a) (lower_str t)
  | EmptyString => EmptyString
  end.

Definition split_sign (s : string) : bool * string :=
  match s with
  | String "-" t => (true, t)
  | String "+" t => (false, t)
  | _ => (false, s)
  end.

(** The optional exponent part, which must end the string. *)
Definition parse_exponent (s : string) : option Z :=
  match s with
  | EmptyString => Some 0
  | String a t =>
      if Ascii.eqb (lower a) "e" then
        let '(neg, t') := split_sign t in
        match span_digits t' with
        | (String d ds, EmptyString) =>
            let n := int_digits (String d ds) in
            Some (if neg then - n else n)
        | _ => None
        end
      else None
  end.

(** [floatnumber]: digits with an optional fraction and exponent, at least
    one digit before or after the point. *)
Definition parse_number (neg : bool) (s : string) : option spec_float :=
  let '(ip, r1) := span_digits s in
  let '(fp, r2) := match r1 with
                   | String "." t => span_digits t
                   | _ => (EmptyString, r1)
                   end in
  match ip +:+ fp with
  | EmptyString => None
  | ds =>
      ex ← parse_exponent r2;
      Some (of_decimal neg (int_digits ds) (ex - Z.of_nat (String.length fp)))
  end.

(** [float(s)] for a [str]. *)
Definition of_str (s : string) : res spec_float :=
  match drop_underscores None (Str.rstrip is_float_space (Str.lstrip is_float_space s)) with
  | None => Raise ValueError
  | Some t =>
      let '(neg, body) := split_sign t in
      let low := lower_str body in
      if String.eqb low "inf" || String.eqb low "infinity" then
        Ok (S754_infinity neg)
      else if String.eqb low "nan" then Ok S754_nan
      else match parse_number neg body with
           | Some f => Ok f
           | None => Raise ValueError
           end
  end.

Definition is_zero (f : spec_float) : bool :=
  match f with
  | S754_zero _ => true
  | _ => false
  end.

(** *** [repr(f)]: the shortest decimal string that reads back as [f] *)

(** The exact value of a positive finite float, as a fraction. *)
Definition frac (m : positive) (e : Z) : Z * Z :=
  match e with
  | Zneg q => (Zpos m, 2 ^ Zpos q)
  | _ => (Zpos m * 2 ^ e, 1)
  end.

Definition ndigits (z : Z) : Z := Z.of_nat (String.length (str_of_int z)).

Fixpoint lead_exp (fuel : nat) (num den j : Z) : Z :=
  match fuel with
  | O => j
  | S fuel' =>
      if den <=? num * 10 ^ j then j else lead_exp fuel' num den (j + 1)
  end.

(** [floor (log10 (num / den))] *)
Definition log10_floor (num den : Z) : Z :=
  if den <=? num then ndigits (num / den) - 1
  else - lead_exp 400 num den 1.

Definition same_float (m : positive) (e : Z) (f : spec_float) : bool :=
  match f with
  | S754_finite false m' e' => Pos.eqb m m' && Z.eqb e e'
  | _ => false
  end.

(** The [n]-digit decimal [d * 10^k] nearest to the float that still reads
    back as it, if there is one. *)
Definition candidate (m : positive) (e : Z) (n : Z) : option (Z * Z) :=
  let '(num, den) := frac m e in
  let k := log10_floor num den - n + 1 in
  let '(sn, sd) := if k <=? 0 then (num * 10 ^ (- k), den)
                   else (num, den * 10 ^ k) in
  let lo := sn / sd in
  let hi := lo + 1 in
  let rn := sn - lo * sd in
  let ok_lo := same_float m e (of_decimal false lo k) in
  let ok_hi := same_float m e (of_decimal false hi k) in
  match ok_lo, ok_hi with
  | true, true =>
      match 2 * rn ?= sd with
      | Lt => Some (lo, k)
      | Gt => Some (hi, k)
      | Eq => Some (if Z.even lo then lo else hi, k)
      end
  | true, false => Some (lo, k)
  | false, true => Some (hi, k)
  | false, false => None
  end.

Fixpoint shortest (fuel : nat) (m : positive) (e : Z) (n : Z) : Z * Z :=
  match fuel with
  | O => (Zpos m, 0)
  | S fuel' =>
      match candidate m e n with
      | Some dk => dk
      | None => shortest fuel' m e (n + 1)
      end
  end.

Fixpoint zeros (n : nat) : string :=
  match n with
  | O => EmptyString
  | S n' => String "0" (zeros n')
  end.

Definition pad2 (s : string) : string :=
  match s with
  | String a EmptyString => String "0" s
  | _ => s
  end.

(** Lay out the digits [ds] of [0.ds * 10^decpt] as [repr] does. *)
Definition layout (ds : string) (decpt : Z) : string :=
  let len := Z.of_nat (String.length ds) in
  if (decpt <=? -4) || (16 <? decpt) then
    let ex := decpt - 1 in
    let mant := match ds with
                | String a EmptyString => ds
                | String a t => String a (String "." t)
                | EmptyString => ds
                end in
    mant +:+ "e" +:+ (if ex <? 0 then "-" else "+")
         +:+ pad2 (str_of_int (Z.abs ex))
  else if decpt <=? 0 then "0." +:+ zeros (Z.to_nat (- decpt)) +:+ ds
  else if len <=? decpt then ds +:+ zeros (Z.to_nat (decpt - len)) +:+ ".0"
  else substring 0 (Z.to_nat decpt) ds +:+ "."
       +:+ substring (Z.to_nat decpt) (Z.to_nat (len - decpt)) ds.

Definition is_zero_char (a : ascii) : bool := Ascii.eqb a "0".

Definition repr (f : spec_float) : string :=
  match f with
  | S754_nan => "nan"
  | S754_infinity neg => if neg then "-inf" else "inf"
  | S754_zero neg => if neg then "-0.0" else "0.0"
  | S754_finite neg m e =>
      match binary_round prec emax false m e with
      | S754_finite _ m' e' =>
          let '(d, k) := shortest 17 m' e' 1 in
          let all := str_of_int d in
          let ds := Str.rstrip is_zero_char all in
          (if neg then "-" else "")
            +:+ layout ds (Z.of_nat (String.length all) + k)
      | S754_infinity _ => if neg then "-inf" else "inf"
      | _ => if neg then "-0.0" else "0.0"
      end
  end.

End Float.

(* ===================================================================== *)
(** ** [bool], [str], [repr] and [dict.get] on values *)
(* ===================================================================== *)

Definition truthy (v : value) : bool :=
  match v with
  | VNone => false
  | VBool b => b
  | VInt z => negb (z =? 0)
  | VFloat f => negb (Float.is_zero f)
  | VStr s => negb (String.eqb s "")
  | VList l => match l with [] => false | _ => true end
  | VDict o => match o with [] => false | _ => true end
  end.

Definition hex_digit (n : Z) : ascii :=
  if n <? 10 then ascii_of_N (Z.to_N (48 + n)) else ascii_of_N (Z.to_N (87 + n)).

Definition printable (a : ascii) : bool :=
  let c := Re.code a in
  ((32 <=? c) && (c <? 127)) || ((161 <=? c) && negb (c =? 173)).

Fixpoint contains_char (c : ascii) (s : string) : bool :=
  match s with
  | String a t => Ascii.eqb a c || contains_char c t
  | EmptyString => false
  end.

Fixpoint escape (quote : ascii) (s : string) : string :=
  match s with
  | String a t =>
      (if Ascii.eqb a quote || Ascii.eqb a "\" then String "\" (String a "")
       else if Re.code a =? 9 then "\t"
       else if Re.code a =? 10 then "\n"
       else if Re.code a =? 13 then "\r"
       else if printable a then String a ""
       else String "\" (String "x" (String (hex_digit (Re.code a / 16))
                                      (String (hex_digit (Re.code a mod 16)) ""))))
      +:+ escape quote t
  | EmptyString => EmptyString
  end.

Definition dquote : ascii := ascii_of_N 34.

(** [repr(s)] for a [str]. *)
Definition repr_str (s : string) : string :=
  let quote : ascii :=
    if contains_char "'" s && negb (contains_char dquote s) then dquote
    else "'"%char in
  String quote (escape quote s) +:+ String quote "".

Fixpoint join (sep : string) (l : list string) : string :=
  match l with
  | [] => ""
  | [x] => x
  | x :: r => x +:+ sep +:+ join sep r
  end.

Fixpoint py_repr (v : value) : string :=
  match v with
  | VNone => "None"
  | VBool b => if b then "True" else "False"
  | VInt z => str_of_int z
  | VFloat f => Float.repr f
  | VStr s => repr_str s
  | VList l =>
      "[" +:+ join ", " ((fix items (l : list value) : list string :=
                            match l with
                            | [] => []
                            | x :: r => py_repr x :: items r
                            end) l) +:+ "]"
  | VDict o =>
      "{" +:+ join ", " ((fix items (o : list (string * value)) : list string :=
                            match o with
                            | [] => []
                            | (k, x) :: r =>
                                (repr_str k +:+ ": " +:+ py_repr x) :: items r
                            end) o) +:+ "}"
  end.

(** [str(v)] *)
Definition py_str (v : value) : string :=
  match v with
  | VStr s => s
  | _ => py_repr v
  end.

(** [o.get(k)] on the entries of a [dict]: [None] when the key is absent. *)
Fixpoint dict_get (o : list (string * value)) (k : string) : value :=
  match o with
  | [] => VNone
  | (k', v) :: r => if String.eqb k' k then v else dict_get r k
  end.

(** [float(v)] *)
Definition py_float (v : value) : res spec_float :=
  match v with
  | VBool b => Float.of_int (if b then 1 else 0)
  | VInt z => Float.of_int z
  | VFloat f => Ok f
  | VStr s => Float.of_str s
  | VNone | VList _ | VDict _ => Raise TypeError
  end.

(* ===================================================================== *)
(** ** The number and duration parsers *)
(* ===================================================================== *)

Definition _to_int_safe (text : value) : option Z :=
  match text with
  | VNone => None
  | _ =>
      let digits := Re.sub_cls Re.NotDigit (py_str text) in
      if negb (String.eqb digits "") then Some (int_digits digits) else None
  end.

(** [(\d+)c] *)
Definition count_before (c : ascii) : Re.pattern :=
  [Re.Plus Re.Digit; Re.One (Re.Lit c)].

(** [int(m.group(1))] when [m] is a match, and [dflt] when it is [None]. *)
Definition group_int (m : option (list string)) (dflt : Z) : Z :=
  match m with
  | Some g => int_digits (Re.group1 g)
  | None => dflt
  end.

Definition _iso8601_duration_to_minutes (iso_str : value) : res (option Z) :=
  if negb (truthy iso_str) then Ok None
  else
    match iso_str with
    | VStr s =>
        let m_h := Re.search (count_before "H") s in
        let m_m := Re.search (count_before "M") s in
        let h := group_int m_h 0 in
        let m := group_int m_m 0 in
        let total := h * 60 + m in
        Ok (if 0 <? total then Some total else None)
    | _ => Raise TypeError      (* re.search on something that is no str *)
    end.

(* ===================================================================== *)
(** ** The page fetcher and extractor *)
(* ===================================================================== *)

(** What the libraries hand to [fetch_min_from_imdb].  For each
    [<script type="application/ld+json">] in document order, the outcome of
    [json.loads(tag.string or "")]; and the text of the element selected by
    [[data-testid="title-techspec_runtime"] li], when the page has one. *)
Inductive loads :=
| LoadsError
| Loads (data : value).

Record page := {
  ld_json : list loads;
  techspec_runtime : option string;
}.

(** [requests.get] followed by [raise_for_status]. *)
Inductive response :=
| Failed (e : exn)
| Body (p : page).

Record scraped := {
  URL : string;
  Year : option Z;
  IMDb_rating : option spec_float;
  Number_of_Votes : option Z;
  Runtime : option Z;
}.

Definition is_movie (d : value) : bool :=
  match d with
  | VDict o =>
      match dict_get o "@type" with
      | VStr t => String.eqb t "Movie" || String.eqb t "CreativeWork"
      | _ => false
      end
  | _ => false
  end.

Definition opt_truthy (ld : option value) : bool :=
  match ld with
  | Some v => truthy v
  | None => false
  end.

(** The body of the [try] for one decoded block. *)
Definition scan_data (ld : option value) (data : value) : option value :=
  match data with
  | VList l =>
      match List.find is_movie l with
      | Some d => Some d
      | None => ld
      end
  | VDict _ => if is_movie data then Some data else ld
  | _ => ld
  end.

(** The loop over the script tags. *)
Fixpoint scan_tags (ld : option value) (tags : list loads) : option value :=
  match tags with
  | [] => ld
  | LoadsError :: rest => scan_tags ld rest
  | Loads data :: rest =>
      let ld' := scan_data ld data in
      if opt_truthy ld' then ld' else scan_tags ld' rest
  end.

Definition year_of (ld : list (string * value)) : option Z :=
  if truthy (dict_get ld "datePublished") then
    match Re.rmatch [Re.Times 4 Re.Digit] (py_str (dict_get ld "datePublished")) with
    | Some m => Some (int_digits (Re.group1 m))
    | None => None
    end
  else None.

(** [agg.get(k)]: only a [dict] has [get]. *)
Definition agg_get (agg : value) (k : string) : res value :=
  match agg with
  | VDict o => Ok (dict_get o k)
  | _ => Raise AttributeError
  end.

(** The block under [if ld:], on the entries of the selected object. *)
Definition extract (ld : list (string * value))
  : res (option Z * option spec_float * option Z * option Z) :=
  let year := year_of ld in
  let agg := if truthy (dict_get ld "aggregateRating")
             then dict_get ld "aggregateRating" else VDict [] in
  rbind (agg_get agg "ratingValue") (fun rating_value =>
  rbind (agg_get agg "ratingCount") (fun rating_count =>
  rbind (match rating_value with
         | VNone => Ok None
         | v => rbind (py_float v) (fun f => Ok (Some f))
         end) (fun rating_value =>
  let rating_count := _to_int_safe rating_count in
  rbind (_iso8601_duration_to_minutes (dict_get ld "duration")) (fun runtime_min =>
  Ok (year, rating_value, rating_count, runtime_min))))).

(** The runtime read off the page text, e.g. ["2h 49m"]. *)
Definition count_before_sp (c : ascii) : Re.pattern :=
  [Re.Plus Re.Digit; Re.Star Re.Space; Re.One (Re.Lit c)].

Definition fallback_runtime (runtime_tag : option string) : option Z :=
  match runtime_tag with
  | Some txt =>
      let h := Re.search (count_before_sp "h") txt in
      let m := Re.search (count_before_sp "m") txt in
      let runtime_min :=
        (match h with Some g => int_digits (Re.group1 g) * 60 | None => 0 end)
        + group_int m 0 in
      if runtime_min =? 0 then None else Some runtime_min
  | None => None
  end.

Definition fetch_min_from_imdb (url : string) (r : response) : res scraped :=
  match r with
  | Failed e => Raise e
  | Body soup =>
      let ld := scan_tags None (ld_json soup) in
      rbind (match ld with
             | Some (VDict o) =>
                 if truthy (VDict o) then extract o
                 else Ok (None, None, None, None)
             | Some v =>
                 if truthy v then Raise AttributeError
                 else Ok (None, None, None, None)
             | None => Ok (None, None, None, None)
             end) (fun '(year, rating_value, rating_count, runtime_min) =>
      let runtime_min :=
        match runtime_min with
        | None => fallback_runtime (techspec_runtime soup)
        | Some _ => runtime_min
        end in
      Ok {| URL := url; Year := year; IMDb_rating := rating_value;
            Number_of_Votes := rating_count; Runtime := runtime_min |})
  end.

(* ===================================================================== *)
(** ** Documents and the MongoDB commands the module issues *)
(* ===================================================================== *)

Inductive bson :=
| BNull
| BInt (z : Z)
| BDouble (f : spec_float)
| BStr (s : string)
| BList (l : list string)
| BOid (n : nat).

Global Instance spec_float_eq_dec : EqDecision spec_float.
Proof. solve_decision. Defined.

Global Instance bson_eq_dec : EqDecision bson.
Proof. solve_decision. Defined.

Abbreviation doc := (gmap string bson).

Module Mongo.

(** Does the double [f] hold exactly the integer [z]? *)
Definition double_is_int (f : spec_float) (z : Z) : bool :=
  match f with
  | S754_zero _ => z =? 0
  | S754_finite neg m e =>
      let '(num, den) := Float.frac m e in
      (num mod den =? 0) && (z =? (if neg then - (num / den) else num / den))
  | _ => false
  end.

(** A stored value against the value of an equality condition: equal, a
    number equal to it, or an array holding it; [null] also matches a
    missing field. *)
Definition value_matches (stored : option bson) (q : bson) : bool :=
  match stored, q with
  | None, BNull => true
  | None, _ => false
  | Some (BList l), BStr s => bool_decide (s ∈ l)
  | Some (BDouble f), BInt z => double_is_int f z
  | Some (BInt z), BDouble f => double_is_int f z
  | Some v, _ => bool_decide (v = q)
  end.

(** An equality filter [{k1: v1, k2: v2, ...}]. *)
Definition matches (flt : list (string * bson)) (d : doc) : bool :=
  forallb (fun '(k, v) => value_matches (d !! k) v) flt.

(** Apply [f] to the first document that satisfies [p]. *)
Fixpoint update_first (p : doc -> bool) (f : doc -> doc) (c : list doc)
  : option (list doc) :=
  match c with
  | [] => None
  | d :: r => if p d then Some (f d :: r) else cons d <$> update_first p f r
  end.

(** [update_one(flt, {"$set": set}, upsert=True)]: the fields of [set]
    replace those of the first matching document; when none matches, a
    document is inserted that holds the filter's fields, then [set], under a
    fresh [_id]. *)
Definition update_one_upsert (flt : list (string * bson)) (set : doc)
    (c : list doc) (oid : nat) : list doc * nat :=
  match update_first (matches flt) (fun d => set ∪ d) c with
  | Some c' => (c', oid)
  | None =>
      (c ++ [set ∪ (list_to_map flt : doc) ∪ {["_id" := BOid oid]}], S oid)
  end.

(** [{"_id": 0, "ID": 1, "Movie": 1}] *)
Definition project (fields : list string) (d : doc) : doc :=
  filter (fun kv => kv.1 ∈ fields) d.

End Mongo.

(** A Population document: an integer [ID], a [Movie] name, and whatever
    else was loaded with it ([_id] among it). *)
Record movie := {
  ID : Z;
  Movie : string;
  others : doc;
}.

Definition doc_of (m : movie) : doc :=
  <["ID" := BInt (ID m)]> (<["Movie" := BStr (Movie m)]> (others m)).

(** A row of the frame that [load_df] returns. *)
Definition row_of (d : doc) : option (Z * string) :=
  match d !! "ID", d !! "Movie" with
  | Some (BInt z), Some (BStr s) => Some (z, s)
  | _, _ => None
  end.

Definition id_le (a b : movie) : Prop := ID a <= ID b.

Global Instance id_le_dec a b : Decision (id_le a b).
Proof. unfold id_le. apply _. Defined.

(* ===================================================================== *)
(** ** The world: connection globals, the two collections, shown errors *)
(* ===================================================================== *)

Record world := {
  client : bool;              (* [client is not None] *)
  col : bool;                 (* [db], [col] and [ds_col] are bound *)
  population : list movie;    (* the Population collection *)
  data_set : list doc;        (* the Data-Set collection *)
  next_oid : nat;             (* the next fresh [_id] *)
  st_errors : list (string * exn);   (* what [st.error] has shown *)
}.

(** How the backend behaves during one operation: whether building the
    client, the ping or the command itself raises, and the random order in
    which [$sample] draws. *)
Record backend := {
  connect_fault : option exn;
  ping_fault : option exn;
  command_fault : option exn;
  shuffle : list movie -> list movie;
}.

Definition M (A : Type) : Type := world -> res A * world.

Definition ret {A} (a : A) : M A := fun w => (Ok a, w).

Definition bind {A B} (m : M A) (f : A -> M B) : M B :=
  fun w => match m w with
           | (Ok a, w') => f a w'
           | (Raise e, w') => (Raise e, w')
           end.

Global Instance M_ret : MRet M := @ret.
Global Instance M_bind : MBind M := fun A B f m => bind m f.

Definition raise {A} (e : exn) : M A := fun w => (Raise e, w).

(** [try: body except <caught> as e: handler(e)] *)
Definition try_except {A} (body : M A) (caught : exn -> bool)
    (handler : exn -> M A) : M A :=
  fun w => match body w with
           | (Ok a, w') => (Ok a, w')
           | (Raise e, w') => if caught e then handler e w' else (Raise e, w')
           end.

(** [st.error(f"<msg>: {e}")] *)
Definition report (msg : string) (e : exn) (w : world) : world :=
  {| client := client w; col := col w; population := population w;
     data_set := data_set w; next_oid := next_oid w;
     st_errors := st_errors w ++ [(msg, e)] |}.

Definition st_error (msg : string) (e : exn) : M unit :=
  fun w => (Ok tt, report msg e w).

Definition set_client (w : world) : world :=
  {| client := true; col := col w; population := population w;
     data_set := data_set w; next_oid := next_oid w;
     st_errors := st_errors w |}.

Definition set_col (w : world) : world :=
  {| client := client w; col := true; population := population w;
     data_set := data_set w; next_oid := next_oid w;
     st_errors := st_errors w |}.

Definition set_population (p : list movie) (w : world) : world :=
  {| client := client w; col := col w; population := p;
     data_set := data_set w; next_oid := next_oid w;
     st_errors := st_errors w |}.

Definition set_data_set (c : list doc) (oid : nat) (w : world) : world :=
  {| client := client w; col := col w; population := population w;
     data_set := c; next_oid := oid; st_errors := st_errors w |}.

Definition ensure_connection (b : backend) : M unit :=
  fun w =>
    if client w then (Ok tt, w)
    else
      match connect_fault b with
      | Some e => (Raise e, w)                 (* client stays None *)
      | None =>
          let w1 := set_client w in            (* client = get_client() *)
          match ping_fault b with
          | Some e => (Raise e, w1)
          | None => (Ok tt, set_col w1)
          end
      end.

(** Reaching for a method of a collection global: [AttributeError] while
    the global is still [None]. *)
Definition bound_col : M unit :=
  fun w => if col w then (Ok tt, w) else (Raise AttributeError, w).

(** The round trip of one command: the backend's fault if it raises one and
    then nothing is changed, else the command's effect [f]. *)
Definition command {A} (b : backend) (f : M A) : M A :=
  fun w =>
    match command_fault b with
    | Some e => (Raise e, w)
    | None => f w
    end.

(** [issubclass(type(e), c)] among the exceptions of [pymongo.errors]. *)
Definition subclass (e c : exn) : bool :=
  bool_decide (e = c)
  || match e, c with
     | AutoReconnect, ConnectionFailure
     | NetworkTimeout, ConnectionFailure
     | NetworkTimeout, AutoReconnect
     | ServerSelectionTimeoutError, ConnectionFailure
     | ServerSelectionTimeoutError, AutoReconnect => true
     | _, _ => false
     end.

(* ===================================================================== *)
(** ** [int] of a stored value *)
(* ===================================================================== *)

Definition all_digits (s : string) : bool :=
  match Float.span_digits s with
  | (String _ _, EmptyString) => true
  | _ => false
  end.

(** [int(s)] for a [str]: optional sign, digits, single underscores between
    digits, whitespace around. *)
Definition int_of_str (s : string) : res Z :=
  let '(neg, body) :=
    Float.split_sign (Str.rstrip Float.is_float_space
                        (Str.lstrip Float.is_float_space s)) in
  match Float.drop_underscores None body with
  | Some ds =>
      if all_digits ds then Ok (if neg then - int_digits ds else int_digits ds)
      else Raise ValueError
  | None => Raise ValueError
  end.

(** [int(f)] for a [float]: truncation towards zero. *)
Definition int_of_float (f : spec_float) : res Z :=
  match f with
  | S754_zero _ => Ok 0
  | S754_finite neg m e =>
      let '(num, den) := Float.frac m e in
      Ok (if neg then - (num / den) else num / den)
  | S754_infinity _ => Raise OverflowError
  | S754_nan => Raise ValueError
  end.

Definition py_int (x : bson) : res Z :=
  match x with
  | BInt z => Ok z
  | BDouble f => int_of_float f
  | BStr s => int_of_str s
  | BNull | BList _ | BOid _ => Raise TypeError
  end.

(* ===================================================================== *)
(** ** The store operations *)
(* ===================================================================== *)

Definition lift {A} (r : res A) : M A := fun w => (r, w).

Definition connectivity_error (e : exn) : bool :=
  subclass e ServerSelectionTimeoutError
  || subclass e ConnectionFailure
  || subclass e ConfigurationError.

Definition any_exception (e : exn) : bool := true.

(** [col.find({}, {"_id": 0, "ID": 1, "Movie": 1}).sort("ID", 1)] *)
Definition find_sorted : M (list doc) :=
  fun w =>
    (Ok (Mongo.project ["ID"; "Movie"] ∘ doc_of
           <$> merge_sort id_le (population w)), w).

(** [pd.DataFrame(docs)] with [ID] cast to [int] and [Movie] to [str]: one
    row per document, in order. *)
Definition DataFrame (docs : list doc) : list (Z * string) :=
  omap row_of docs.

(** The [try] block of [load_df]. *)
Definition load_df_body (b : backend) : M (list (Z * string)) :=
  ensure_connection b;;
  bound_col;;
  docs ← command b find_sorted;
  mret (DataFrame docs).

Definition load_df (b : backend) : M (list (Z * string)) :=
  try_except (load_df_body b) connectivity_error
    (fun e => st_error "Could not reach MongoDB Atlas" e;; mret []).

(** [col.delete_one({"ID": movie_id})] *)
Fixpoint remove_first (movie_id : Z) (p : list movie) : option (list movie) :=
  match p with
  | [] => None
  | d :: r =>
      if Mongo.matches [("ID", BInt movie_id)] (doc_of d) then Some r
      else cons d <$> remove_first movie_id r
  end.

Definition delete_one (movie_id : Z) : M Z :=
  fun w =>
    match remove_first movie_id (population w) with
    | Some p => (Ok 1, set_population p w)
    | None => (Ok 0, w)
    end.

Definition delete_one_by_id_body (b : backend) (movie_id : Z) : M Z :=
  ensure_connection b;;
  bound_col;;
  command b (delete_one movie_id).

Definition delete_one_by_id (b : backend) (movie_id : Z) : M Z :=
  try_except (delete_one_by_id_body b movie_id) any_exception
    (fun e => st_error "Delete failed" e;; mret 0).

(** [col.aggregate([{"$sample": {"size": k}}, {"$project": ...}])]: [k]
    documents in the backend's random order, which is an order of the
    collection; the stage rejects a size that is not positive. *)
Definition aggregate_sample (b : backend) (k : Z) : M (list doc) :=
  fun w =>
    if k <=? 0 then (Raise OperationFailure, w)
    else (Ok (Mongo.project ["ID"; "Movie"] ∘ doc_of
                <$> take (Z.to_nat k) (shuffle b (population w))), w).

Definition sample_docs_body (b : backend) (k : Z) : M (list doc) :=
  ensure_connection b;;
  bound_col;;
  command b (aggregate_sample b k).

Definition sample_docs (b : backend) (k : Z) : M (list doc) :=
  try_except (sample_docs_body b k) any_exception
    (fun e => st_error "Sampling failed" e;; mret []).

(** A document matches [{"ID": {"$in": ids}}] when it matches one of them. *)
Definition id_in (ids : list Z) (d : movie) : bool :=
  existsb (fun x => Mongo.matches [("ID", BInt x)] (doc_of d)) ids.

Definition delete_many (ids : list Z) : M Z :=
  fun w =>
    let kept := filter (fun d => ¬ id_in ids d) (population w) in
    (Ok (Z.of_nat (length (population w)) - Z.of_nat (length kept)),
     set_population kept w).

(** [[int(x) for x in ids]] *)
Fixpoint ints_of (ids : list bson) : res (list Z) :=
  match ids with
  | [] => Ok []
  | x :: r => rbind (py_int x) (fun z => rbind (ints_of r) (fun zs => Ok (z :: zs)))
  end.

Definition delete_many_by_ids_body (b : backend) (ids : list bson) : M Z :=
  ensure_connection b;;
  bound_col;;
  ints ← lift (ints_of ids);
  command b (delete_many ints).

Definition delete_many_by_ids (b : backend) (ids : list bson) : M Z :=
  try_except (delete_many_by_ids_body b ids) any_exception
    (fun e => st_error "Bulk delete failed" e;; mret 0).

(** [[d["ID"] for d in sdocs]] *)
Fixpoint ids_of (sdocs : list doc) : res (list bson) :=
  match sdocs with
  | [] => Ok []
  | d :: r =>
      match d !! "ID" with
      | Some x => rbind (ids_of r) (fun xs => Ok (x :: xs))
      | None => Raise KeyError
      end
  end.

(** The handler of the "Draw and DELETE" button; [b1] and [b2] are the
    backend's behaviour during the sample and during the deletion. *)
Definition draw_and_delete (b1 b2 : backend) (k : Z) : M Z :=
  sdocs ← sample_docs b1 k;
  ids_to_delete ← lift (ids_of sdocs);
  delete_many_by_ids b2 ids_to_delete.

(* ===================================================================== *)
(** ** Saving to the Data-Set collection *)
(* ===================================================================== *)

(** What the form holds when "Save to Data-Set" is pressed. *)
Record form := {
  url : string;
  mv : string;
  genre_text : string;
  dir_text : string;
  writer_text : string;
  country_text : string;
  gross_num : Z;
  fetched : option scraped;
}.

Definition to_list (s : string) : list string :=
  if Str.nonempty s then
    Str.strip <$> List.filter (fun x => Str.nonempty (Str.strip x)) (Str.split "," s)
  else [].

Definition opt_bson {A} (f : A -> bson) (o : option A) : bson :=
  match o with
  | Some a => f a
  | None => BNull
  end.

Definition doc_out (f : form) : doc :=
  list_to_map [
    ("URL", if Str.nonempty (url f) then BStr (Str.strip (url f)) else BNull);
    ("Movie", if Str.nonempty (mv f) then BStr (mv f) else BNull);
    ("Genre", BList (to_list (genre_text f)));
    ("Year", opt_bson BInt (fetched f ≫= Year));
    ("IMDb rating", opt_bson BDouble (fetched f ≫= IMDb_rating));
    ("Director", BList (to_list (dir_text f)));
    ("Number of Votes", opt_bson BInt (fetched f ≫= Number_of_Votes));
    ("Writer", BList (to_list (writer_text f)));
    ("Country", BList (to_list (country_text f)));
    ("Runtime", opt_bson BInt (fetched f ≫= Runtime));
    ("Gross Profit", if gross_num f =? 0 then BNull else BInt (gross_num f))
  ].

Definition bson_truthy (v : bson) : bool :=
  match v with
  | BNull => false
  | BInt z => negb (z =? 0)
  | BDouble f => negb (Float.is_zero f)
  | BStr s => Str.nonempty s
  | BList l => match l with [] => false | _ => true end
  | BOid _ => true
  end.

(** [doc[k]] for a key the document holds. *)
Definition field (d : doc) (k : string) : bson := default BNull (d !! k).

(** The filter of the upsert. *)
Definition key (d : doc) : list (string * bson) :=
  if bson_truthy (field d "URL") then [("URL", field d "URL")]
  else [("Movie", field d "Movie"); ("Year", field d "Year")].

(** [ds_col.update_one(flt, {"$set": set}, upsert=True)] *)
Definition ds_update_one (flt : list (string * bson)) (set : doc) : M unit :=
  fun w =>
    let '(c, oid) := Mongo.update_one_upsert flt set (data_set w) (next_oid w) in
    (Ok tt, set_data_set c oid w).

Definition save_body (b : backend) (f : form) : M unit :=
  ensure_connection b;;
  bound_col;;
  command b (ds_update_one (key (doc_out f)) (doc_out f)).

(** The handler of the "Save to Data-Set" button. *)
Definition save_to_data_set (b : backend) (f : form) : M unit :=
  try_except (save_body b f) any_exception
    (fun e => st_error "Failed to save" e).

(** [save_movie_record(doc)], which no handler calls: upsert by the [URL]
    entry alone, [None] when the entry is missing. *)
Definition save_movie_record (b : backend) (d : doc) : M unit :=
  ensure_connection b;;
  bound_col;;
  command b (ds_update_one [("URL", field d "URL")] d).

(** The handler of the "Test Atlas connection" button. *)
Definition test_connection (b : backend) : M unit :=
  try_except (ensure_connection b) any_exception
    (fun e => st_error "Atlas connection failed" e).

(** After a ping that failed the client is bound and the collections are
    not: no later call connects again. *)
Definition stuck (w : world) : bool := client w && negb (col w).

(** The worlds the application can be in: it starts unconnected with an
    empty Data-Set collection and whatever Population was loaded, and moves
    by its operations. *)
Definition start (p : list movie) : world :=
  {| client := false; col := false; population := p; data_set := [];
     next_oid := 0; st_errors := [] |}.

Inductive reachable : world -> Prop :=
| reach_start p : reachable (start p)
| reach_test b w : reachable w -> reachable ((test_connection b w).2)
| reach_delete b i w : reachable w -> reachable ((delete_one_by_id b i w).2)
| reach_load b w : reachable w -> reachable ((load_df b w).2)
| reach_sample b k w : reachable w -> reachable ((sample_docs b k w).2)
| reach_draw b1 b2 k w : reachable w -> reachable ((draw_and_delete b1 b2 k w).2)
| reach_save b f w : reachable w -> reachable ((save_to_data_set b f w).2).

(** The world once [ensure_connection] has gone through. *)
Definition connected (w : world) : world :=
  if client w then w else set_col (set_client w).

(** A backend that answers every call. *)
Definition healthy (b : backend) : Prop :=
  connect_fault b = None ∧ ping_fault b = None ∧ command_fault b = None.

(** A backend that cannot be reached: the ping raises [e]. *)
Definition unreachable (e : exn) : backend :=
  {| connect_fault := None; ping_fault := Some e; command_fault := None;
     shuffle := id |}.

(** A backend that is reached and then refuses the command with [e]. *)
Definition refusing (e : exn) : backend :=
  {| connect_fault := None; ping_fault := None; command_fault := Some e;
     shuffle := id |}.

(** An operation left both collections as they were. *)
Definition untouched (w w' : world) : Prop :=
  population w' = population w ∧ data_set w' = data_set w
  ∧ next_oid w' = next_oid w.

(** A computation that leaves the Data-Set collection alone. *)
Definition keeps_data_set {A} (m : M A) : Prop :=
  ∀ w, data_set (m w).2 = data_set w.

(** A fault that also showed nothing. *)
Definition quiet_fault (w w' : world) : Prop :=
  untouched w w' ∧ st_errors w' = st_errors w.

Definition reliable (shuffle : list movie -> list movie) : backend :=
  {| connect_fault := None; ping_fault := None; command_fault := None;
     shuffle := shuffle |}.

(* ===================================================================== *)
(** ** The specification's side *)
(* ===================================================================== *)

Module Spec.

(** [parseIntLenient]: strip every non-digit character; null when nothing
    remains, else the integer the remaining digits write in base ten. *)
Definition digit_chars (s : string) : list ascii :=
  List.filter Re.is_digit (list_ascii_of_string s).

Fixpoint decimal (ds : list ascii) : Z :=
  match ds with
  | [] => 0
  | d :: r => digit_val d * 10 ^ Z.of_nat (length r) + decimal r
  end.

Definition parseIntLenient (text : value) : option Z :=
  match text with
  | VNone => None
  | _ =>
      match digit_chars (py_str text) with
      | [] => None
      | ds => Some (decimal ds)
      end
  end.

(** The integer a count writes; a missing count is zero. *)
Definition count_value (count : string) : Z :=
  decimal (list_ascii_of_string count).

(** A duration component: an integer count immediately before its marker
    letter, or nothing when the component is missing. *)
Definition component (count : string) (marker : ascii) : string :=
  match count with
  | EmptyString => EmptyString
  | _ => count +:+ String marker EmptyString
  end.

Fixpoint digits_only (s : string) : bool :=
  match s with
  | String a t => Re.is_digit a && digits_only t
  | EmptyString => true
  end.

(** Does some digit stand right before the letter [c]? *)
Fixpoint digit_then (c : ascii) (s : string) : bool :=
  match s with
  | String a t =>
      match t with
      | String b _ => (Re.is_digit a && Ascii.eqb b c) || digit_then c t
      | EmptyString => false
      end
  | EmptyString => false
  end.

Fixpoint ends_in_digit (s : string) : bool :=
  match s with
  | String a EmptyString => Re.is_digit a
  | String _ t => ends_in_digit t
  | EmptyString => false
  end.

(** A count before [c] at the start of a string: a non-empty run of digits
    with [c] right after it. *)
Definition count_at (c : ascii) (s : string) : option (list string) :=
  match Float.span_digits s with
  | (String d ds, String x _) =>
      if Ascii.eqb x c then Some [String d ds; String x ""] else None
  | _ => None
  end.

(** Text around the components that holds no count of its own: no digit
    right before an [H] or an [M]. *)
Definition no_count (s : string) : bool :=
  negb (digit_then "H" s) && negb (digit_then "M" s).

(** A block that offers no object of type Movie or CreativeWork: invalid
    JSON, or a decoded value that is or holds none. *)
Definition no_movie (t : loads) : Prop :=
  match t with
  | LoadsError => True
  | Loads (VList l) => Forall (fun d => is_movie d = false) l
  | Loads d => is_movie d = false
  end.

(** The object the scan selects: the first of type Movie or CreativeWork,
    at top level or inside a list, in the first block that offers one. *)
Definition first_movie (data : value) (o : list (string * value)) : Prop :=
  is_movie (VDict o) = true
  ∧ (data = VDict o
     ∨ ∃ l1 l2, data = VList (l1 ++ VDict o :: l2)
                ∧ Forall (fun d => is_movie d = false) l1).

Definition selected (tags : list loads) (o : list (string * value)) : Prop :=
  ∃ before data after,
    tags = before ++ Loads data :: after
    ∧ Forall no_movie before
    ∧ first_movie data o.


(** The fixture of the extraction test: one object of the given type. *)
Definition fixture (type : string) : value :=
  VDict [("@type", VStr type);
         ("datePublished", VStr "2014-11-07");
         ("aggregateRating",
          VDict [("ratingValue", VStr "8.6"); ("ratingCount", VStr "2,100,000")]);
         ("duration", VStr "PT2H49M")].

(** The double nearest to 8.6. *)
Definition double_8_6 : spec_float := S754_finite false 4841369599423283 (-49).


Definition page_rating_not_numeric : page :=
  {| ld_json := [Loads (VDict [("@type", VStr "Movie");
                               ("aggregateRating",
                                VDict [("ratingValue", VStr "N/A")])])];
     techspec_runtime := None |}.

Definition page_duration_not_string : page :=
  {| ld_json := [Loads (VDict [("@type", VStr "Movie");
                               ("duration", VInt 169)])];
     techspec_runtime := None |}.

(** The fields of a DataSetRecord. *)
Definition tracked : gset string :=
  {[ "URL"; "Movie"; "Genre"; "Year"; "IMDb rating"; "Director";
     "Number of Votes"; "Writer"; "Country"; "Runtime"; "Gross Profit" ]}.

(** The identity of a record in the data model: its URL when that is not
    null, otherwise its (Movie, Year) pair. *)
Definition identity (d : doc) : bson + bson * bson :=
  match field d "URL" with
  | BNull => inr (field d "Movie", field d "Year")
  | u => inl u
  end.

Definition records_at (k : bson + bson * bson) (c : list doc) : list doc :=
  List.filter (fun d => bool_decide (identity d = k)) c.

(** A document as the save operation leaves it: the fields of some form
    under an [_id]. *)
Definition stored (d : doc) : Prop :=
  ∃ f n, d = <["_id" := BOid n]> (doc_out f).

(** No two records share a URL that is not empty. *)
Definition url_unique (c : list doc) : Prop :=
  ∀ i j di dj,
    c !! i = Some di → c !! j = Some dj →
    bson_truthy (field di "URL") = true →
    field di "URL" = field dj "URL" → i = j.

Definition urls (c : list doc) : list bson :=
  (fun x => field x "URL") <$> c.

Definition distinct_truthy (us : list bson) : Prop :=
  ∀ i j u, us !! i = Some u → us !! j = Some u →
           bson_truthy u = true → i = j.

(** Four saves, as an operator may make them: a film entered with its
    URL under a wrong title, another entered without URL, the first title
    corrected, the second entered again with a genre. *)
Definition year_2020 : option scraped :=
  Some {| URL := "https://www.imdb.com/title/tt0000001/"; Year := Some 2020;
          IMDb_rating := None; Number_of_Votes := None; Runtime := None |}.

Definition entry (u m g : string) : form :=
  {| url := u; mv := m; genre_text := g; dir_text := ""; writer_text := "";
     country_text := ""; gross_num := 0; fetched := year_2020 |}.

Definition four_saves : world :=
  let b := reliable id in
  let w1 := (save_to_data_set b
               (entry "https://www.imdb.com/title/tt0000001/" "Bar" "")
               (start [])).2 in
  let w2 := (save_to_data_set b (entry "" "Foo" "") w1).2 in
  let w3 := (save_to_data_set b
               (entry "https://www.imdb.com/title/tt0000001/" "Foo" "") w2).2 in
  (save_to_data_set b (entry "" "Foo" "drama") w3).2.

End Spec.


(* ===================================================================== *)
(** ** Further notions for the properties of the code *)
(* ===================================================================== *)

From Stdlib Require DecimalPos.

(** A computation that leaves the Population collection alone, and one
    that at most removes records from it. *)
Definition keeps_population {A} (m : M A) : Prop :=
  ∀ w, population (m w).2 = population w.

Definition shrinks_population {A} (m : M A) : Prop :=
  ∀ w, population (m w).2 `sublist_of` population w.

(** One operation of the application, on whatever backend. *)
Inductive step : world -> world -> Prop :=
| step_test b w : step w ((test_connection b w).2)
| step_delete b i w : step w ((delete_one_by_id b i w).2)
| step_delete_many b ids w : step w ((delete_many_by_ids b ids w).2)
| step_load b w : step w ((load_df b w).2)
| step_sample b k w : step w ((sample_docs b k w).2)
| step_draw b1 b2 k w : step w ((draw_and_delete b1 b2 k w).2)
| step_save b f w : step w ((save_to_data_set b f w).2).

(** A name as [to_list] keeps it: not empty, no white space at either end,
    no comma. *)
Definition clean (x : string) : Prop :=
  x ≠ "" ∧ Str.strip x = x ∧ contains_char "," x = false.

(** The entries of a text that is not empty, as [to_list] computes them. *)
Definition entries (s : string) : list string :=
  Str.strip <$> List.filter (fun x => Str.nonempty (Str.strip x)) (Str.split "," s).

(** Every character of [s] is in the class [cl]. *)
Fixpoint all_in (cl : Re.cls) (s : string) : bool :=
  match s with
  | String a t => Re.cls_test cl a && all_in cl t
  | EmptyString => true
  end.

(** Does [s] start with a character of the class [cl]? *)
Definition starts_in (cl : Re.cls) (s : string) : bool :=
  match s with
  | String a _ => Re.cls_test cl a
  | EmptyString => false
  end.

(** A total of minutes as the parsers return it: null instead of zero. *)
Definition minutes_or_none (total : Z) : option Z :=
  if total =? 0 then None else Some total.

(** The handler of the "Fetch" button.  [fetched_doc] is the entry of the
    session state before the run and [r] what the network answers for the
    stripped URL; the result pairs the entry of the session state after the
    run with the [fetched] that the form below reads. *)
Definition fetch_button (fetch_btn : bool) (url : string) (r : response)
    (fetched_doc : option scraped) : M (option scraped * option scraped) :=
  let fetched := fetched_doc in
  if fetch_btn && Str.nonempty url then
    try_except
      (doc ← lift (fetch_min_from_imdb (Str.strip url) r);
       mret (Some doc, Some doc))
      any_exception
      (fun e => st_error "Fetch failed" e;; mret (None, None))
  else mret (fetched_doc, fetched).

(** The four entries of a saved document that come from the fetch. *)
Definition fetched_fields (d : doc) : list (option bson) :=
  [d !! "Year"; d !! "IMDb rating"; d !! "Number of Votes"; d !! "Runtime"].




(** CPython converts between [int] and [str] only up to this many digits
    (the default of [sys.set_int_max_str_digits]) and raises [ValueError]
    beyond; the properties that read or write a number of any length are
    stated for digits within it. *)
Definition int_max_str_digits : nat := 4300.

Definition convertible (digits : string) : Prop :=
  (String.length digits <= int_max_str_digits)%nat.
(* ===================================================================== *)
(** * Properties *)
(* ===================================================================== *)

(** ** Strings *)

#[local] Arguments String.append : simpl nomatch.

Lemma append_nil_r (s : string) : s +:+ "" = s.
Proof. induction s as [|a s IH]; simpl; [reflexivity | now rewrite IH]. Qed.

Lemma append_assoc (s t u : string) : (s +:+ t) +:+ u = s +:+ (t +:+ u).
Proof. induction s as [|a s IH]; simpl; [reflexivity | now rewrite IH]. Qed.

Lemma append_snoc (s t : string) (a : ascii) :
  (s +:+ String a "") +:+ t = s +:+ String a t.
Proof. now rewrite append_assoc. Qed.

Lemma string_eqb_empty (s : string) : String.eqb s "" = true ↔ s = "".
Proof. apply String.eqb_eq. Qed.

(** ** The pattern [(\d+)c] *)

Section Greedy.

Variable k : string -> option (list string).
Hypothesis k_digit : ∀ a t, Re.is_digit a = true → k (String a t) = None.

(** Backtracking never helps when what follows cannot start with a digit:
    the repetition takes the whole run. *)
Lemma greedy_digits (acc s : string) :
  Re.greedy Re.Digit k acc s =
  cons (acc +:+ (Float.span_digits s).1) <$> k (Float.span_digits s).2.
Proof.
  revert acc. induction s as [|a t IH]; intros acc.
  - simpl. now rewrite append_nil_r.
  - cbn [Re.greedy Re.cls_test Float.span_digits].
    destruct (Re.is_digit a) eqn:Ha.
    + rewrite IH. destruct (Float.span_digits t) as [ds rest].
      cbn [fst snd]. rewrite append_snoc.
      destruct (k rest); [reflexivity|].
      now rewrite (k_digit a t Ha).
    + cbn [fst snd]. now rewrite append_nil_r.
Qed.

End Greedy.

Lemma lit_at (c : ascii) (s : string) :
  Re.match_at [Re.One (Re.Lit c)] s =
  match s with
  | String a t => if Ascii.eqb a c then Some [String a ""] else None
  | EmptyString => None
  end.
Proof.
  destruct s as [|a t]; simpl; [reflexivity|].
  now destruct (Ascii.eqb a c).
Qed.

Lemma lit_at_digit (c a : ascii) (t : string) :
  Re.is_digit c = false → Re.is_digit a = true →
  Re.match_at [Re.One (Re.Lit c)] (String a t) = None.
Proof.
  intros Hc Ha. rewrite lit_at.
  destruct (Ascii.eqb_spec a c) as [->|]; [congruence | reflexivity].
Qed.

Lemma match_plus (cl : Re.cls) (p : Re.pattern) (a : ascii) (t : string) :
  Re.match_at (Re.Plus cl :: p) (String a t) =
  if Re.cls_test cl a then Re.greedy cl (Re.match_at p) (String a "") t
  else None.
Proof. reflexivity. Qed.

Lemma match_count_before (c : ascii) (s : string) :
  Re.is_digit c = false →
  Re.match_at (count_before c) s = Spec.count_at c s.
Proof.
  intros Hc. unfold Spec.count_at, count_before.
  destruct s as [|a t]; [reflexivity|].
  rewrite match_plus. cbn [Re.cls_test Float.span_digits].
  destruct (Re.is_digit a) eqn:Ha; [|reflexivity].
  rewrite greedy_digits by (intros; now apply lit_at_digit).
  destruct (Float.span_digits t) as [ds rest]. cbn [fst snd].
  rewrite lit_at. destruct rest as [|x r]; [reflexivity|].
  now destruct (Ascii.eqb x c).
Qed.

(** ** Searching for a count *)

Lemma search_unfold (p : Re.pattern) (s : string) :
  Re.search p s =
  match Re.match_at p s with
  | Some r => Some r
  | None => match s with
            | String _ t => Re.search p t
            | EmptyString => None
            end
  end.
Proof. destruct s; reflexivity. Qed.

Lemma span_digits_run (ds : string) (x : ascii) (r : string) :
  Spec.digits_only ds = true → Re.is_digit x = false →
  Float.span_digits (ds +:+ String x r) = (ds, String x r).
Proof.
  intros Hds Hx. induction ds as [|d ds IH]; simpl.
  - now rewrite Hx.
  - simpl in Hds. apply andb_prop in Hds as [Hd Hds].
    now rewrite Hd, (IH Hds).
Qed.

Section Search.

Variable c : ascii.
Hypothesis c_not_digit : Re.is_digit c = false.

Lemma search_skip (x : ascii) (r : string) :
  Re.is_digit x = false →
  Re.search (count_before c) (String x r) = Re.search (count_before c) r.
Proof.
  intros Hx. rewrite search_unfold, match_count_before by assumption.
  unfold Spec.count_at. simpl. now rewrite Hx.
Qed.

(** A run of digits followed by [x]: the count is found at the start of
    the run when [x] is the marker, and nowhere in the run otherwise. *)
Lemma search_run (ds : string) (x : ascii) (r : string) :
  Spec.digits_only ds = true → ds ≠ "" → Re.is_digit x = false →
  Re.search (count_before c) (ds +:+ String x r) =
  if Ascii.eqb x c then Some [ds; String x ""]
  else Re.search (count_before c) (String x r).
Proof.
  intros Hds Hne Hx. induction ds as [|d ds IH]; [congruence|].
  rewrite search_unfold, match_count_before by assumption.
  unfold Spec.count_at. rewrite span_digits_run by assumption.
  destruct (Ascii.eqb x c) eqn:Hxc; [reflexivity|].
  simpl. simpl in Hds. apply andb_prop in Hds as [_ Hds].
  destruct ds as [|d' ds']; [reflexivity|].
  rewrite IH by (assumption || discriminate). reflexivity.
Qed.

Lemma span_digits_split (s : string) :
  s = (Float.span_digits s).1 +:+ (Float.span_digits s).2.
Proof.
  induction s as [|a s IH]; simpl; [reflexivity|].
  destruct (Re.is_digit a); [|reflexivity].
  destruct (Float.span_digits s) as [ds rest]. simpl in *. now rewrite <- IH.
Qed.

Lemma digit_then_cons (a : ascii) (t : string) :
  Spec.digit_then c t = true → Spec.digit_then c (String a t) = true.
Proof.
  intros Ht. destruct t as [|b u]; [discriminate|].
  cbn [Spec.digit_then] in *. rewrite Ht. apply orb_true_r.
Qed.

Lemma digit_then_tail (a : ascii) (t : string) :
  Spec.digit_then c (String a t) = false → Spec.digit_then c t = false.
Proof.
  intros H. destruct (Spec.digit_then c t) eqn:Ht; [|reflexivity].
  now rewrite (digit_then_cons a t Ht) in H.
Qed.

(** A run of digits that stops at [c] shows a digit right before [c]. *)
Lemma span_digit_then (s : string) (d : ascii) (ds r : string) :
  Float.span_digits s = (String d ds, String c r) →
  Spec.digit_then c s = true.
Proof.
  revert d ds. induction s as [|a t IH]; intros d ds; [discriminate|].
  cbn [Float.span_digits]. destruct (Re.is_digit a) eqn:Ha; [|discriminate].
  pose proof (span_digits_split t) as Hsplit.
  destruct (Float.span_digits t) as [ds' rest'] eqn:Ht. intros [= -> -> ->].
  destruct ds as [|d' ds''].
  - cbn in Hsplit. subst t. cbn [Spec.digit_then].
    now rewrite Ha, Ascii.eqb_refl.
  - apply digit_then_cons. eapply IH. reflexivity.
Qed.

Lemma count_at_digit_then (s : string) :
  Spec.digit_then c s = false → Spec.count_at c s = None.
Proof.
  intros Hs. unfold Spec.count_at.
  destruct (Float.span_digits s) as [ds rest] eqn:Hspan.
  destruct ds as [|d ds]; [reflexivity|].
  destruct rest as [|x r]; [reflexivity|].
  destruct (Ascii.eqb_spec x c) as [->|]; [|reflexivity].
  rewrite (span_digit_then _ _ _ _ Hspan) in Hs. discriminate.
Qed.


(** In text that does not end in a digit, a run of digits stops inside
    the text. *)
Lemma span_digits_inside (t rest : string) :
  t ≠ "" → Spec.ends_in_digit t = false →
  ∃ x r, (Float.span_digits t).2 = String x r
         ∧ Float.span_digits (t +:+ rest)
           = ((Float.span_digits t).1, String x (r +:+ rest)).
Proof.
  induction t as [|b u IH]; intros Hne He; [congruence|].
  simpl. destruct (Re.is_digit b) eqn:Hb.
  - destruct u as [|b' u'].
    + simpl in He. congruence.
    + destruct (IH ltac:(discriminate) He) as (x & r & Hxr & Happ).
      rewrite Happ.
      destruct (Float.span_digits (String b' u')) as [ds rest'].
      simpl in *. subst rest'. eauto.
  - simpl. eauto.
Qed.

Lemma count_at_prefix (pre rest : string) :
  pre ≠ "" → Spec.digit_then c pre = false → Spec.ends_in_digit pre = false →
  Spec.count_at c (pre +:+ rest) = None.
Proof.
  intros Hne Hc He.
  pose proof (count_at_digit_then pre Hc) as Hpre.
  destruct (span_digits_inside pre rest Hne He) as (x & r & Hxr & Happ).
  unfold Spec.count_at in *. rewrite Happ.
  destruct (Float.span_digits pre) as [ds rest']. simpl in Hxr. subst rest'.
  cbn [fst]. exact Hpre.
Qed.

(** Text before the components that holds no count and does not end in a
    digit is passed over. *)
Lemma search_prefix (pre rest : string) :
  Spec.digit_then c pre = false → Spec.ends_in_digit pre = false →
  Re.search (count_before c) (pre +:+ rest) = Re.search (count_before c) rest.
Proof.
  induction pre as [|a t IH]; intros Hc He; [reflexivity|].
  rewrite search_unfold, match_count_before by assumption.
  rewrite count_at_prefix by (assumption || discriminate).
  simpl. apply IH.
  - now apply digit_then_tail in Hc.
  - destruct t; [reflexivity | exact He].
Qed.

End Search.

(** ** Reading integers *)

Lemma int_digits_from_decimal (acc : Z) (s : string) :
  int_digits_from acc s =
  acc * 10 ^ Z.of_nat (length (list_ascii_of_string s))
  + Spec.decimal (list_ascii_of_string s).
Proof.
  revert acc. induction s as [|a s IH]; intros acc.
  - simpl. lia.
  - cbn [int_digits_from list_ascii_of_string Spec.decimal length].
    rewrite IH, Nat2Z.inj_succ, Z.pow_succ_r by lia. ring.
Qed.

Lemma int_digits_decimal (s : string) :
  int_digits s = Spec.count_value s.
Proof. unfold int_digits. rewrite int_digits_from_decimal. unfold Spec.count_value. lia. Qed.

Lemma is_digit_val (a : ascii) :
  Re.is_digit a = true → 0 <= digit_val a <= 9.
Proof. unfold Re.is_digit, digit_val. lia. Qed.

Lemma decimal_nonneg (ds : list ascii) :
  Forall (fun a => Re.is_digit a = true) ds → 0 <= Spec.decimal ds.
Proof.
  induction 1 as [|a ds Ha _ IH]; simpl; [lia|].
  apply is_digit_val in Ha.
  assert (0 <= 10 ^ Z.of_nat (length ds)) by (apply Z.pow_nonneg; lia).
  nia.
Qed.

Lemma sub_not_digit_chars (s : string) :
  list_ascii_of_string (Re.sub_cls Re.NotDigit s) = Spec.digit_chars s.
Proof.
  unfold Spec.digit_chars. induction s as [|a s IH]; simpl; [reflexivity|].
  destruct (Re.is_digit a); simpl; now rewrite IH.
Qed.

Lemma digit_chars_digits (s : string) :
  Forall (fun a => Re.is_digit a = true) (Spec.digit_chars s).
Proof.
  unfold Spec.digit_chars. apply List.Forall_forall.
  intros a Ha. now apply List.filter_In in Ha as [_ ?].
Qed.

(** The body of [_to_int_safe] on the string it was handed. *)
Lemma to_int_of_str (s : string) :
  (let digits := Re.sub_cls Re.NotDigit s in
   if negb (String.eqb digits "") then Some (int_digits digits) else None)
  = match Spec.digit_chars s with
    | [] => None
    | ds => Some (Spec.decimal ds)
    end.
Proof.
  cbv zeta. rewrite int_digits_decimal. unfold Spec.count_value.
  rewrite sub_not_digit_chars.
  pose proof (sub_not_digit_chars s) as H.
  destruct (Re.sub_cls Re.NotDigit s) as [|a t].
  - simpl in H. now rewrite <- H.
  - simpl in H. now rewrite <- H.
Qed.

Lemma to_int_safe_refines (text : value) :
  _to_int_safe text = Spec.parseIntLenient text.
Proof.
  unfold _to_int_safe, Spec.parseIntLenient.
  destruct text; try reflexivity; apply to_int_of_str.
Qed.



(** ** Durations *)

Lemma no_count_split (s : string) :
  Spec.no_count s = true →
  Spec.digit_then "H" s = false ∧ Spec.digit_then "M" s = false.
Proof.
  unfold Spec.no_count. intros [H1 H2]%andb_prop.
  split; now apply negb_true_iff.
Qed.


Ltac side :=
  first [reflexivity | assumption | discriminate | (simpl; assumption)].

Section Components.

Variables pre hd md post : string.
Hypothesis pre_quiet : Spec.no_count pre = true.
Hypothesis pre_end : Spec.ends_in_digit pre = false.
Hypothesis hd_digits : Spec.digits_only hd = true.
Hypothesis md_digits : Spec.digits_only md = true.
Hypothesis post_quiet : Spec.no_count post = true.

Let s : string :=
  pre +:+ Spec.component hd "H" +:+ Spec.component md "M" +:+ post.



End Components.




(** ** Scanning the linked-data blocks *)

Lemma find_none (l : list value) :
  Forall (fun d => is_movie d = false) l → List.find is_movie l = None.
Proof. induction 1 as [|d l Hd _ IH]; simpl; [reflexivity | now rewrite Hd]. Qed.

Lemma find_first (l1 l2 : list value) (d : value) :
  Forall (fun d => is_movie d = false) l1 → is_movie d = true →
  List.find is_movie (l1 ++ d :: l2) = Some d.
Proof.
  intros H Hd. induction H as [|x l Hx _ IH]; simpl.
  - now rewrite Hd.
  - now rewrite Hx.
Qed.

Lemma scan_data_quiet (ld : option value) (data : value) :
  Spec.no_movie (Loads data) → scan_data ld data = ld.
Proof.
  destruct data; simpl; try reflexivity.
  - intros H. now rewrite find_none.
  - intros H. cbn in H. unfold scan_data. now rewrite H.
Qed.

Lemma scan_tags_quiet (tags rest : list loads) :
  Forall Spec.no_movie tags →
  scan_tags None (tags ++ rest) = scan_tags None rest.
Proof.
  induction 1 as [|t tags Ht _ IH]; [reflexivity|].
  destruct t as [|data]; simpl; [exact IH|].
  rewrite scan_data_quiet by exact Ht. exact IH.
Qed.

Lemma movie_truthy (o : list (string * value)) :
  is_movie (VDict o) = true → truthy (VDict o) = true.
Proof. now destruct o. Qed.

Lemma scan_tags_selected (tags : list loads) (o : list (string * value)) :
  Spec.selected tags o → scan_tags None tags = Some (VDict o).
Proof.
  intros (before & data & after & -> & Hq & Hm & Hd).
  rewrite scan_tags_quiet by exact Hq.
  assert (Hs : scan_data None data = Some (VDict o)).
  { destruct Hd as [->|(l1 & l2 & -> & Hl1)].
    - unfold scan_data. now rewrite Hm.
    - unfold scan_data. now rewrite find_first. }
  cbn [scan_tags]. rewrite Hs. cbn [opt_truthy].
  now rewrite movie_truthy.
Qed.

(** ** Extraction *)





Lemma fetch_selected (url : string) (pg : page) (o : list (string * value)) :
  Spec.selected (ld_json pg) o →
  fetch_min_from_imdb url (Body pg) =
  rbind (extract o) (fun '(year, rating_value, rating_count, runtime_min) =>
    Ok {| URL := url; Year := year; IMDb_rating := rating_value;
          Number_of_Votes := rating_count;
          Runtime := match runtime_min with
                     | None => fallback_runtime (techspec_runtime pg)
                     | Some _ => runtime_min
                     end |}).
Proof.
  intros Hsel. unfold fetch_min_from_imdb.
  rewrite (scan_tags_selected _ _ Hsel).
  destruct Hsel as (_ & _ & _ & _ & _ & Hm & _).
  now rewrite (movie_truthy _ Hm).
Qed.




Lemma fetch_raises_on_rating_that_is_no_number :
  fetch_min_from_imdb "https://www.imdb.com/title/tt0816692/"
    (Body Spec.page_rating_not_numeric) = Raise ValueError.
Proof. vm_compute. reflexivity. Qed.

Lemma fetch_raises_on_duration_that_is_no_string :
  fetch_min_from_imdb "https://www.imdb.com/title/tt0816692/"
    (Body Spec.page_duration_not_string) = Raise TypeError.
Proof. reflexivity. Qed.

(** C2: for a page whose structured-data block of type Movie or
    CreativeWork carries datePublished "2014-11-07", an aggregate rating
    with ratingValue "8.6" and ratingCount "2,100,000", and duration
    "PT2H49M", the extraction returns Year 2014, rating 8.6 as a float,
    2100000 votes and a runtime of 169 minutes. *)
Theorem fetch_extracts_fixture (url type : string) (before after : list loads)
    (runtime_tag : option string) :
  type = "Movie" ∨ type = "CreativeWork" →
  Forall Spec.no_movie before →
  fetch_min_from_imdb url
    (Body {| ld_json := before ++ Loads (Spec.fixture type) :: after;
             techspec_runtime := runtime_tag |})
  = Ok {| URL := url; Year := Some 2014; IMDb_rating := Some Spec.double_8_6;
          Number_of_Votes := Some 2100000; Runtime := Some 169 |}
  ∧ Float.of_str "8.6" = Ok Spec.double_8_6
  ∧ Float.repr Spec.double_8_6 = "8.6"
  ∧ _to_int_safe (VStr "2,100,000") = Some 2100000
  ∧ _iso8601_duration_to_minutes (VStr "PT2H49M") = Ok (Some 169).
Proof.
  intros Ht Hq. split; [|repeat split; vm_compute; reflexivity].
  rewrite (fetch_selected url _ (match Spec.fixture type with
                                 | VDict o => o
                                 | _ => []
                                 end)).
  - destruct Ht as [-> | ->]; vm_compute; reflexivity.
  - exists before, (Spec.fixture type), after.
    split; [reflexivity|]. split; [exact Hq|].
    split; [|left; reflexivity].
    destruct Ht as [-> | ->]; reflexivity.
Qed.

Lemma fetch_extracts_fixture_witness :
  ("CreativeWork" = "Movie" ∨ "CreativeWork" = "CreativeWork")
  ∧ Forall Spec.no_movie [LoadsError]
  ∧ fetch_min_from_imdb "u"
      (Body {| ld_json := [LoadsError; Loads (Spec.fixture "CreativeWork")];
               techspec_runtime := Some "2h 49m" |})
    = Ok {| URL := "u"; Year := Some 2014; IMDb_rating := Some Spec.double_8_6;
            Number_of_Votes := Some 2100000; Runtime := Some 169 |}.
Proof.
  assert (Hq : Forall Spec.no_movie [LoadsError]) by (repeat constructor).
  split; [right; reflexivity|]. split; [exact Hq|].
  exact (proj1 (fetch_extracts_fixture "u" "CreativeWork" [LoadsError] []
                  (Some "2h 49m") (or_intror eq_refl) Hq)).
Defined.

(** ** Running the store operations *)

Ltac unfold_monad :=
  unfold mbind, mret, M_bind, M_ret, bind, ret, raise, lift, try_except,
    st_error in *.

Lemma ensure_connection_healthy (b : backend) (w : world) :
  healthy b → ensure_connection b w = (Ok tt, connected w).
Proof.
  intros (Hc & Hp & _). unfold ensure_connection, connected.
  destruct (client w); [reflexivity|]. now rewrite Hc, Hp.
Qed.

Lemma col_connected (w : world) : stuck w = false → col (connected w) = true.
Proof.
  unfold stuck, connected. destruct (client w) eqn:Hc; simpl; [|reflexivity].
  now destruct (col w).
Qed.

Lemma connected_idem (w : world) :
  stuck w = false → connected (connected w) = connected w.
Proof.
  unfold stuck, connected. destruct (client w) eqn:Hc; simpl.
  - now rewrite Hc.
  - reflexivity.
Qed.

Lemma stuck_connected (w : world) : stuck w = false → stuck (connected w) = false.
Proof.
  intros H. unfold stuck. rewrite (col_connected w H). apply andb_false_r.
Qed.

Lemma population_connected (w : world) : population (connected w) = population w.
Proof. unfold connected. now destruct (client w). Qed.

Lemma data_set_connected (w : world) : data_set (connected w) = data_set w.
Proof. unfold connected. now destruct (client w). Qed.

Lemma next_oid_connected (w : world) : next_oid (connected w) = next_oid w.
Proof. unfold connected. now destruct (client w). Qed.

(** A failed [ensure_connection] touches neither collection nor the shown
    errors. *)
Lemma ensure_connection_keeps (b : backend) (w : world) :
  population (ensure_connection b w).2 = population w
  ∧ data_set (ensure_connection b w).2 = data_set w
  ∧ next_oid (ensure_connection b w).2 = next_oid w
  ∧ st_errors (ensure_connection b w).2 = st_errors w.
Proof.
  unfold ensure_connection.
  destruct (client w), (connect_fault b), (ping_fault b); simpl; auto.
Qed.

(** What a body that starts by connecting and reaching for the collection
    does, case by case. *)
Lemma connect_then {A} (b : backend) (f : M A) (w : world) :
  (ensure_connection b;; bound_col;; f) w =
  match ensure_connection b w with
  | (Ok _, w1) => if col w1 then f w1 else (Raise AttributeError, w1)
  | (Raise e, w1) => (Raise e, w1)
  end.
Proof.
  unfold_monad. destruct (ensure_connection b w) as [[[]|e] w1]; [|reflexivity].
  unfold bound_col. now destruct (col w1).
Qed.

Lemma connect_then_healthy {A} (b : backend) (f : M A) (w : world) :
  healthy b → stuck w = false →
  (ensure_connection b;; bound_col;; f) w = f (connected w).
Proof.
  intros Hb Hw. rewrite connect_then, ensure_connection_healthy by assumption.
  now rewrite col_connected.
Qed.

Lemma command_healthy {A} (b : backend) (f : M A) (w : world) :
  healthy b → command b f w = f w.
Proof. intros (_ & _ & Hc). unfold command. now rewrite Hc. Qed.

(** ** Listing the Population collection *)

Global Instance id_le_total : Total id_le.
Proof. intros a b. unfold id_le. lia. Qed.

Global Instance id_le_trans : Transitive id_le.
Proof. intros a b c. unfold id_le. lia. Qed.

Lemma project_doc_of (m : movie) :
  Mongo.project ["ID"; "Movie"] (doc_of m) =
  <["ID" := BInt (ID m)]> (<["Movie" := BStr (Movie m)]> ∅).
Proof.
  unfold Mongo.project, doc_of. apply map_eq. intros i.
  apply option_eq. intros x.
  rewrite map_lookup_filter_Some. cbn [fst].
  rewrite !lookup_insert_Some, lookup_empty.
  rewrite !elem_of_cons, elem_of_nil.
  intuition (subst; try congruence; auto).
Qed.

Lemma row_of_project (m : movie) :
  row_of (Mongo.project ["ID"; "Movie"] (doc_of m)) = Some (ID m, Movie m).
Proof.
  rewrite project_doc_of. unfold row_of.
  rewrite lookup_insert_eq, lookup_insert_ne by discriminate.
  now rewrite lookup_insert_eq.
Qed.

Lemma dom_project (m : movie) :
  dom (Mongo.project ["ID"; "Movie"] (doc_of m)) = ({["ID"; "Movie"]} : gset string).
Proof.
  rewrite project_doc_of, !dom_insert_L, dom_empty_L. set_solver.
Qed.

Lemma DataFrame_projected (l : list movie) :
  DataFrame (Mongo.project ["ID"; "Movie"] ∘ doc_of <$> l) =
  (fun m => (ID m, Movie m)) <$> l.
Proof.
  unfold DataFrame. induction l as [|m l IH]; [reflexivity|].
  cbn [fmap list_fmap omap list_omap compose].
  rewrite row_of_project. cbn. f_equal. exact IH.
Qed.

Lemma load_df_healthy (b : backend) (w : world) :
  healthy b → stuck w = false →
  load_df b w =
  (Ok ((fun m => (ID m, Movie m)) <$> merge_sort id_le (population w)),
   connected w).
Proof.
  intros Hb Hw. unfold load_df, try_except, load_df_body.
  rewrite connect_then_healthy by assumption.
  unfold_monad. rewrite command_healthy by assumption.
  unfold find_sorted. rewrite population_connected.
  now rewrite DataFrame_projected.
Qed.

(** C8: on a reachable backend, [load_df] returns the records of the
    Population collection, whatever its state, sorted by ID ascending; each
    document the query fetches holds exactly the fields ID and Movie, which
    are the two columns of the returned rows. *)
Theorem load_df_sorted_projection (b : backend) (w : world) :
  healthy b → stuck w = false →
  ∃ docs rows,
    find_sorted (connected w) = (Ok docs, connected w)
    ∧ load_df b w = (Ok rows, connected w)
    ∧ rows = DataFrame docs
    ∧ Forall (fun d => dom d = ({["ID"; "Movie"]} : gset string)) docs
    ∧ length docs = length (population w)
    ∧ Sorted (fun r1 r2 => r1.1 <= r2.1) rows
    ∧ rows ≡ₚ (fun m => (ID m, Movie m)) <$> population w.
Proof.
  intros Hb Hw.
  exists (Mongo.project ["ID"; "Movie"] ∘ doc_of <$> merge_sort id_le (population w)),
         ((fun m => (ID m, Movie m)) <$> merge_sort id_le (population w)).
  split_and!.
  - unfold find_sorted. now rewrite population_connected.
  - now apply load_df_healthy.
  - now rewrite DataFrame_projected.
  - apply Forall_fmap, Forall_forall. intros m _. apply dom_project.
  - rewrite length_fmap. apply Permutation_length, merge_sort_Permutation.
  - apply (Sorted_fmap _ id_le); [|apply Sorted_merge_sort; apply _].
    intros x y Hxy. exact Hxy.
  - now rewrite merge_sort_Permutation.
Qed.

Lemma load_df_sorted_projection_witness :
  healthy (reliable id) ∧ stuck (start [{| ID := 7; Movie := "Roma"; others := ∅ |};
                                        {| ID := 2; Movie := "Volver";
                                           others := {["Year" := BInt 2006]} |}]) = false
  ∧ ∃ docs rows,
      find_sorted (connected (start [{| ID := 7; Movie := "Roma"; others := ∅ |};
                                     {| ID := 2; Movie := "Volver";
                                        others := {["Year" := BInt 2006]} |}]))
      = (Ok docs, connected (start [{| ID := 7; Movie := "Roma"; others := ∅ |};
                                    {| ID := 2; Movie := "Volver";
                                       others := {["Year" := BInt 2006]} |}]))
      ∧ load_df (reliable id)
          (start [{| ID := 7; Movie := "Roma"; others := ∅ |};
                  {| ID := 2; Movie := "Volver"; others := {["Year" := BInt 2006]} |}])
        = (Ok rows, connected (start [{| ID := 7; Movie := "Roma"; others := ∅ |};
                                      {| ID := 2; Movie := "Volver";
                                         others := {["Year" := BInt 2006]} |}]))
      ∧ rows = DataFrame docs
      ∧ Forall (fun d => dom d = ({["ID"; "Movie"]} : gset string)) docs
      ∧ length docs = 2%nat
      ∧ Sorted (fun r1 r2 => r1.1 <= r2.1) rows
      ∧ rows ≡ₚ [(7, "Roma"); (2, "Volver")].
Proof.
  assert (Hb : healthy (reliable id)) by (repeat split).
  split; [exact Hb|]. split; [reflexivity|].
  exact (load_df_sorted_projection (reliable id)
           (start [{| ID := 7; Movie := "Roma"; others := ∅ |};
                   {| ID := 2; Movie := "Volver"; others := {["Year" := BInt 2006]} |}])
           Hb eq_refl).
Defined.

(** ** Sampling and deleting *)

Lemma matches_id (x : Z) (m : movie) :
  Mongo.matches [("ID", BInt x)] (doc_of m) = bool_decide (ID m = x).
Proof.
  unfold Mongo.matches, doc_of. cbn [forallb]. rewrite lookup_insert_eq.
  cbn [Mongo.value_matches]. rewrite andb_true_r.
  apply bool_decide_ext. split; congruence.
Qed.

Lemma id_in_spec (ids : list Z) (m : movie) : id_in ids m ↔ ID m ∈ ids.
Proof.
  unfold id_in. induction ids as [|x ids IH]; cbn [existsb].
  - rewrite elem_of_nil. tauto.
  - rewrite matches_id, elem_of_cons, orb_True, bool_decide_spec. tauto.
Qed.

Lemma ids_of_projected (l : list movie) :
  ids_of (Mongo.project ["ID"; "Movie"] ∘ doc_of <$> l) =
  Ok (BInt ∘ ID <$> l).
Proof.
  induction l as [|m l IH]; [reflexivity|].
  cbn [fmap list_fmap ids_of compose]. rewrite project_doc_of, lookup_insert_eq.
  change (list_fmap movie doc (fun x => Mongo.project ["ID"; "Movie"] (doc_of x)) l)
    with (Mongo.project ["ID"; "Movie"] ∘ doc_of <$> l).
  rewrite IH. reflexivity.
Qed.

Lemma ints_of_ids (l : list movie) :
  ints_of (BInt ∘ ID <$> l) = Ok (ID <$> l).
Proof.
  induction l as [|m l IH]; [reflexivity|].
  cbn [fmap list_fmap ints_of compose py_int rbind].
  change (list_fmap movie bson (fun x => BInt (ID x)) l) with (BInt ∘ ID <$> l).
  rewrite IH. reflexivity.
Qed.

Lemma filter_none {A} (P : A → Prop) `{∀ x, Decision (P x)} (l : list A) :
  (∀ x, x ∈ l → ¬ P x) → filter P l = [].
Proof.
  induction l as [|a l IH]; intros Hl; [reflexivity|].
  rewrite filter_cons_False by (apply Hl; left).
  apply IH. intros x Hx. apply Hl. now right.
Qed.

Lemma filter_all {A} (P : A → Prop) `{∀ x, Decision (P x)} (l : list A) :
  (∀ x, x ∈ l → P x) → filter P l = l.
Proof.
  induction l as [|a l IH]; intros Hl; [reflexivity|].
  rewrite filter_cons_True by (apply Hl; left).
  f_equal. apply IH. intros x Hx. apply Hl. now right.
Qed.

(** Deleting the IDs of [sampled] from a collection that splits into
    [sampled] and [rest] leaves [rest]. *)
Lemma kept_after_delete (pop sampled rest : list movie) :
  pop ≡ₚ sampled ++ rest → NoDup (ID <$> pop) →
  filter (fun d => ¬ id_in (ID <$> sampled) d) pop ≡ₚ rest.
Proof.
  intros Hp Hnd. rewrite Hp, filter_app.
  rewrite Hp, fmap_app in Hnd. apply NoDup_app in Hnd as (_ & Hdisj & _).
  rewrite filter_none, filter_all; [reflexivity| |].
  - intros m Hm Hin. apply id_in_spec in Hin.
    apply (Hdisj (ID m)); [exact Hin|]. now apply list_elem_of_fmap_2.
  - intros m Hm Hnot. apply Hnot, id_in_spec. now apply list_elem_of_fmap_2.
Qed.

Lemma sample_docs_healthy (b : backend) (k : Z) (w : world) :
  healthy b → stuck w = false →
  sample_docs b k w =
  if k <=? 0 then (Ok [], report "Sampling failed" OperationFailure (connected w))
  else (Ok (Mongo.project ["ID"; "Movie"] ∘ doc_of
              <$> take (Z.to_nat k) (shuffle b (population w))),
        connected w).
Proof.
  intros Hb Hw. unfold sample_docs, try_except, sample_docs_body.
  rewrite connect_then_healthy, command_healthy by assumption.
  unfold aggregate_sample. rewrite population_connected.
  destruct (k <=? 0); reflexivity.
Qed.

Lemma delete_many_by_ids_healthy (b : backend) (l : list movie) (w : world) :
  healthy b → stuck w = false →
  delete_many_by_ids b (BInt ∘ ID <$> l) w =
  (Ok (Z.of_nat (length (population w))
       - Z.of_nat (length (filter (fun d => ¬ id_in (ID <$> l) d) (population w)))),
   set_population (filter (fun d => ¬ id_in (ID <$> l) d) (population w))
     (connected w)).
Proof.
  intros Hb Hw. unfold delete_many_by_ids, try_except, delete_many_by_ids_body.
  rewrite connect_then_healthy by assumption.
  unfold_monad. rewrite ints_of_ids, command_healthy by assumption.
  unfold delete_many. now rewrite population_connected.
Qed.

Lemma draw_and_delete_healthy (b1 b2 : backend) (k : Z) (w : world) :
  healthy b1 → healthy b2 → stuck w = false →
  let sampled :=
    if k <=? 0 then [] else take (Z.to_nat k) (shuffle b1 (population w)) in
  let kept := filter (fun d => ¬ id_in (ID <$> sampled) d) (population w) in
  ∃ w1, draw_and_delete b1 b2 k w =
          (Ok (Z.of_nat (length (population w)) - Z.of_nat (length kept)),
           set_population kept w1)
        ∧ data_set w1 = data_set w.
Proof.
  intros Hb1 Hb2 Hw sampled kept. unfold draw_and_delete.
  unfold_monad. rewrite sample_docs_healthy by assumption.
  subst kept sampled. destruct (k <=? 0).
  - cbn [ids_of].
    rewrite (delete_many_by_ids_healthy b2 [])
      by (assumption || (apply stuck_connected in Hw; exact Hw)).
    cbn [population report]. rewrite population_connected.
    eexists. split; [reflexivity|].
    rewrite data_set_connected. cbn. apply data_set_connected.
  - rewrite ids_of_projected.
    rewrite delete_many_by_ids_healthy
      by (assumption || now apply stuck_connected).
    rewrite population_connected.
    eexists. split; [reflexivity|].
    now rewrite !data_set_connected.
Qed.

(** C9: for a Population collection of N records with distinct IDs and a
    k < N, sampling k records (the backend drawing in some order of the
    collection) and then deleting exactly the IDs the sample returned
    deletes k records, leaves N - k, and leaves none of the sampled IDs. *)
Theorem draw_then_delete_removes_sample (b1 b2 : backend) (k : Z) (w : world) :
  healthy b1 → healthy b2 → stuck w = false →
  NoDup (ID <$> population w) →
  0 <= k < Z.of_nat (length (population w)) →
  shuffle b1 (population w) ≡ₚ population w →
  ∃ w', draw_and_delete b1 b2 k w = (Ok k, w')
        ∧ Z.of_nat (length (population w'))
          = Z.of_nat (length (population w)) - k
        ∧ (∀ m, m ∈ take (Z.to_nat k) (shuffle b1 (population w)) →
                ID m ∉ ID <$> population w')
        ∧ population w' ≡ₚ drop (Z.to_nat k) (shuffle b1 (population w)).
Proof.
  intros Hb1 Hb2 Hw Hnd Hk Hsh.
  destruct (draw_and_delete_healthy b1 b2 k w Hb1 Hb2 Hw) as (w1 & Hrun & _).
  cbv zeta in Hrun.
  assert (Hs : (if k <=? 0 then []
                else take (Z.to_nat k) (shuffle b1 (population w)))
               = take (Z.to_nat k) (shuffle b1 (population w))).
  { destruct (Z.leb_spec k 0); [|reflexivity].
    replace k with 0 by lia. reflexivity. }
  rewrite Hs in Hrun. clear Hs.
  set (sampled := take (Z.to_nat k) (shuffle b1 (population w))) in *.
  set (rest := drop (Z.to_nat k) (shuffle b1 (population w))).
  assert (Hsplit : population w ≡ₚ sampled ++ rest).
  { subst sampled rest. now rewrite take_drop. }
  pose proof (kept_after_delete _ _ _ Hsplit Hnd) as Hkept.
  assert (Hlen : Z.of_nat (length rest) = Z.of_nat (length (population w)) - k).
  { subst rest. rewrite length_drop, Hsh. lia. }
  eexists. split_and!.
  - rewrite Hrun. f_equal. f_equal. rewrite Hkept. lia.
  - cbn [population set_population]. now rewrite Hkept.
  - cbn [population set_population]. intros m Hm Hin.
    apply list_elem_of_fmap in Hin as (m' & Heq & Hm').
    apply list_elem_of_filter in Hm' as [Hnot _].
    apply Hnot, id_in_spec. rewrite <- Heq. now apply list_elem_of_fmap_2.
  - cbn [population set_population]. exact Hkept.
Qed.

Lemma draw_then_delete_removes_sample_witness :
  healthy (reliable (@rev movie)) ∧ healthy (reliable id)
  ∧ ∃ w', draw_and_delete (reliable (@rev movie)) (reliable id) 2
            (start [{| ID := 7; Movie := "Roma"; others := ∅ |};
                    {| ID := 2; Movie := "Volver"; others := ∅ |};
                    {| ID := 5; Movie := "Biutiful"; others := ∅ |}])
          = (Ok 2, w')
          ∧ Z.of_nat (length (population w')) = 3 - 2
          ∧ (∀ m, m ∈ [{| ID := 5; Movie := "Biutiful"; others := ∅ |};
                       {| ID := 2; Movie := "Volver"; others := ∅ |}] →
                  ID m ∉ ID <$> population w')
          ∧ population w' ≡ₚ [{| ID := 7; Movie := "Roma"; others := ∅ |}].
Proof.
  assert (Hb : ∀ sh, healthy (reliable sh)) by (intros; repeat split).
  split; [apply Hb|]. split; [apply Hb|].
  refine (draw_then_delete_removes_sample (reliable (@rev movie)) (reliable id) 2
            (start [{| ID := 7; Movie := "Roma"; others := ∅ |};
                    {| ID := 2; Movie := "Volver"; others := ∅ |};
                    {| ID := 5; Movie := "Biutiful"; others := ∅ |}])
            (Hb _) (Hb _) eq_refl _ _ _).
  - cbn. repeat constructor; rewrite ?elem_of_cons, ?elem_of_nil; intuition lia.
  - cbn. lia.
  - symmetry. apply Permutation_rev.
Defined.

(** ** Faults *)

Lemma body_fault_keeps {A} (b : backend) (f : M A) (w w' : world) (e : exn) :
  (∀ w1 e1 w2, f w1 = (Raise e1, w2) → quiet_fault w1 w2) →
  (ensure_connection b;; bound_col;; f) w = (Raise e, w') →
  quiet_fault w w'.
Proof.
  intros Hf. rewrite connect_then.
  destruct (ensure_connection_keeps b w) as (Hp & Hd & Hn & He).
  destruct (ensure_connection b w) as [[[]|e0] w1]; cbn [snd] in *.
  - destruct (col w1).
    + intros Hrun. destruct (Hf _ _ _ Hrun) as ((? & ? & ?) & ?).
      repeat split; congruence.
    + intros [= _ <-]. repeat split; assumption.
  - intros [= _ <-]. repeat split; assumption.
Qed.

Lemma command_fault_keeps {A} (b : backend) (f : M A) :
  (∀ w1 e1 w2, f w1 = (Raise e1, w2) → quiet_fault w1 w2) →
  ∀ w1 e1 w2, command b f w1 = (Raise e1, w2) → quiet_fault w1 w2.
Proof.
  intros Hf w1 e1 w2. unfold command. destruct (command_fault b).
  - intros [= _ <-]. repeat split.
  - apply Hf.
Qed.


Lemma sample_docs_body_fault (b : backend) (k : Z) (w w' : world) (e : exn) :
  sample_docs_body b k w = (Raise e, w') → quiet_fault w w'.
Proof.
  apply body_fault_keeps, command_fault_keeps.
  intros w1 e1 w2. unfold aggregate_sample.
  destruct (k <=? 0); [|discriminate].
  intros [= _ <-]. repeat split.
Qed.


Lemma delete_many_body_fault (b : backend) (ids : list bson) (w w' : world)
    (e : exn) :
  delete_many_by_ids_body b ids w = (Raise e, w') → quiet_fault w w'.
Proof.
  apply body_fault_keeps. intros w1 e1 w2. unfold_monad.
  destruct (ints_of ids) as [ints|e2].
  - apply command_fault_keeps. unfold delete_many. discriminate.
  - intros [= _ <-]. repeat split.
Qed.





(** After a ping that failed, the next listing raises as well, on a healthy
    backend: the client global is bound and the collection is not. *)
Lemma load_df_after_failed_ping :
  (load_df (reliable id)
     (load_df (unreachable ServerSelectionTimeoutError) (start [])).2).1
  = Raise AttributeError.
Proof. reflexivity. Qed.

(** ** Documents of the Data-Set collection *)

Lemma dom_doc_out (f : form) : dom (doc_out f) = Spec.tracked.
Proof.
  unfold doc_out, Spec.tracked. cbn [list_to_map foldr uncurry fst snd].
  rewrite !dom_insert_L, dom_empty_L. set_solver.
Qed.

Lemma doc_out_no_id (f : form) : doc_out f !! "_id" = None.
Proof.
  apply not_elem_of_dom. rewrite dom_doc_out. unfold Spec.tracked.
  rewrite !elem_of_union, !elem_of_singleton. intuition discriminate.
Qed.

Lemma doc_out_tracked (f : form) (k : string) :
  k ∈ Spec.tracked → is_Some (doc_out f !! k).
Proof. intros Hk. apply elem_of_dom. now rewrite dom_doc_out. Qed.

Lemma union_absorb (m1 m2 : doc) : dom m2 ⊆ dom m1 → m1 ∪ m2 = m1.
Proof.
  intros Hsub. apply map_eq. intros i. rewrite lookup_union.
  destruct (m1 !! i) eqn:H1; [now destruct (m2 !! i)|].
  assert (H2 : m2 !! i = None).
  { apply not_elem_of_dom. intros Hi. apply Hsub in Hi.
    apply elem_of_dom in Hi as [? ?]. congruence. }
  now rewrite H2.
Qed.

Lemma union_overwrite (m1 m0 : doc) (k : string) (v : bson) :
  dom m1 = dom m0 → m1 !! k = None → m1 ∪ <[k := v]> m0 = <[k := v]> m1.
Proof.
  intros Hdom Hk. apply map_eq. intros i. rewrite lookup_union.
  destruct (decide (i = k)) as [->|Hne].
  - now rewrite Hk, !lookup_insert_eq.
  - rewrite !lookup_insert_ne by congruence.
    destruct (m1 !! i) eqn:H1; [now destruct (m0 !! i)|].
    assert (H0 : m0 !! i = None).
    { apply not_elem_of_dom. rewrite <- Hdom. now apply not_elem_of_dom. }
    now rewrite H0.
Qed.

(** Overwriting a stored document leaves the new fields under the old
    [_id]. *)
Lemma set_over_stored (f : form) (old : doc) :
  Spec.stored old →
  doc_out f ∪ old = <["_id" := field old "_id"]> (doc_out f).
Proof.
  intros (f0 & n & ->). unfold field. rewrite lookup_insert_eq. cbn [default].
  apply union_overwrite; [|apply doc_out_no_id].
  now rewrite !dom_doc_out.
Qed.

Lemma dom_key (f : form) :
  dom (list_to_map (key (doc_out f)) : doc) ⊆ dom (doc_out f).
Proof.
  rewrite dom_doc_out. unfold key, Spec.tracked.
  destruct (bson_truthy _); cbn [list_to_map foldr uncurry fst snd];
    rewrite !dom_insert_L, dom_empty_L; intros x;
    rewrite !elem_of_union, !elem_of_singleton, elem_of_empty; tauto.
Qed.

(** The document an upsert inserts. *)
Lemma inserted_doc (f : form) (oid : nat) :
  doc_out f ∪ (list_to_map (key (doc_out f)) : doc) ∪ {["_id" := BOid oid]}
  = <["_id" := BOid oid]> (doc_out f).
Proof.
  rewrite (union_absorb (doc_out f) (list_to_map (key (doc_out f))))
    by apply dom_key.
  symmetry. apply insert_union_singleton_r, doc_out_no_id.
Qed.

Lemma stored_field (f : form) (n : nat) (k : string) :
  k ≠ "_id" → field (<["_id" := BOid n]> (doc_out f)) k = field (doc_out f) k.
Proof. intros Hk. unfold field. now rewrite lookup_insert_ne by congruence. Qed.

Lemma url_of_doc_out (f : form) :
  doc_out f !! "URL" =
  Some (if Str.nonempty (url f) then BStr (Str.strip (url f)) else BNull).
Proof. reflexivity. Qed.

Lemma dom_stored (d : doc) :
  Spec.stored d → dom d = Spec.tracked ∪ {["_id"]}.
Proof.
  intros (f & n & ->). rewrite dom_insert_L, dom_doc_out. set_solver.
Qed.

(** ** The upsert *)

Lemma update_first_none (p : doc → bool) (g : doc → doc) (c : list doc) :
  Mongo.update_first p g c = None ↔ Forall (fun x => p x = false) c.
Proof.
  induction c as [|d c IH]; cbn [Mongo.update_first].
  - split; [constructor | reflexivity].
  - destruct (p d) eqn:Hd.
    + split; [discriminate|]. intros H. apply Forall_cons in H as [? _]. congruence.
    + rewrite fmap_None, IH, Forall_cons. tauto.
Qed.

Lemma update_first_some (p : doc → bool) (g : doc → doc) (c c' : list doc) :
  Mongo.update_first p g c = Some c' →
  ∃ i old, c !! i = Some old ∧ p old = true
           ∧ (∀ j x, (j < i)%nat → c !! j = Some x → p x = false)
           ∧ c' = <[i := g old]> c.
Proof.
  revert c'. induction c as [|d c IH]; intros c'; cbn [Mongo.update_first].
  - discriminate.
  - destruct (p d) eqn:Hd.
    + intros [= <-]. exists 0%nat, d. split_and!; try reflexivity; try assumption.
      intros j x Hj. lia.
    + intros (c1 & Hc1 & ->)%fmap_Some.
      destruct (IH _ Hc1) as (i & old & Hi & Hp & Hfirst & ->).
      exists (S i), old. split_and!; try assumption; try reflexivity.
      intros [|j] x Hj Hx.
      * cbn in Hx. congruence.
      * apply (Hfirst j x); [lia | exact Hx].
Qed.

(** The first matching document is what [update_first] changes. *)
Lemma update_first_at (p : doc → bool) (g : doc → doc) (c : list doc)
    (i : nat) (old : doc) :
  c !! i = Some old → p old = true →
  (∀ j x, (j < i)%nat → c !! j = Some x → p x = false) →
  Mongo.update_first p g c = Some (<[i := g old]> c).
Proof.
  intros Hi Hp Hfirst.
  destruct (Mongo.update_first p g c) as [c'|] eqn:Hu.
  - destruct (update_first_some _ _ _ _ Hu) as (i' & old' & Hi' & Hp' & Hf' & ->).
    assert (i' = i) as ->.
    { destruct (Nat.lt_trichotomy i' i) as [Hlt|[Heq|Hgt]]; [|exact Heq|].
      - rewrite (Hfirst _ _ Hlt Hi') in Hp'. discriminate.
      - rewrite (Hf' _ _ Hgt Hi) in Hp. discriminate. }
    congruence.
  - apply update_first_none in Hu.
    rewrite Forall_lookup in Hu. rewrite (Hu _ _ Hi) in Hp. discriminate.
Qed.

(** ** One record per URL *)

Lemma url_unique_urls (c : list doc) :
  Spec.url_unique c ↔ Spec.distinct_truthy (Spec.urls c).
Proof.
  unfold Spec.url_unique, Spec.distinct_truthy, Spec.urls. split.
  - intros H i j u Hi Hj Hu.
    rewrite list_lookup_fmap in Hi, Hj.
    destruct (c !! i) as [di|] eqn:Hdi; [|discriminate].
    destruct (c !! j) as [dj|] eqn:Hdj; [|discriminate].
    cbn in Hi, Hj. apply (H i j di dj); congruence.
  - intros H i j di dj Hi Hj Hu Heq.
    apply (H i j (field di "URL")); rewrite ?list_lookup_fmap, ?Hi, ?Hj; cbn;
      congruence.
Qed.

Lemma distinct_insert_falsy (us : list bson) (i : nat) (u : bson) :
  Spec.distinct_truthy us → bson_truthy u = false →
  Spec.distinct_truthy (<[i := u]> us).
Proof.
  intros H Hu j1 j2 v H1 H2 Hv.
  destruct (decide (i = j1)) as [->|N1].
  { apply list_lookup_insert_Some in H1 as [(_ & <- & _)|(? & _)]; congruence. }
  destruct (decide (i = j2)) as [->|N2].
  { apply list_lookup_insert_Some in H2 as [(_ & <- & _)|(? & _)]; congruence. }
  rewrite list_lookup_insert_ne in H1, H2 by assumption. eauto.
Qed.

Lemma distinct_snoc (us : list bson) (u : bson) :
  Spec.distinct_truthy us → (bson_truthy u = true → u ∉ us) →
  Spec.distinct_truthy (us ++ [u]).
Proof.
  intros H Hu j1 j2 v H1 H2 Hv.
  apply lookup_snoc_Some in H1 as [[L1 H1]|[-> <-]];
    apply lookup_snoc_Some in H2 as [[L2 H2]|[-> E2]].
  - eauto.
  - subst v. exfalso. apply (Hu Hv). eapply list_elem_of_lookup_2, H1.
  - exfalso. apply (Hu Hv). eapply list_elem_of_lookup_2, H2.
  - reflexivity.
Qed.

Lemma stored_url (x : doc) :
  Spec.stored x →
  x !! "URL" = Some (field x "URL")
  ∧ (field x "URL" = BNull ∨ ∃ s, field x "URL" = BStr s).
Proof.
  intros (f & n & ->). unfold field.
  rewrite lookup_insert_ne by discriminate. rewrite url_of_doc_out. cbn.
  split; [reflexivity|]. destruct (Str.nonempty (url f)); eauto.
Qed.

Lemma matches_url_stored (x : doc) (s : string) :
  Spec.stored x →
  Mongo.matches [("URL", BStr s)] x = bool_decide (field x "URL" = BStr s).
Proof.
  intros Hx. destruct (stored_url x Hx) as [Hl Hcase].
  unfold Mongo.matches. cbn [forallb]. rewrite Hl, andb_true_r.
  destruct Hcase as [->|[s0 ->]]; reflexivity.
Qed.

Lemma key_of_url (f : form) :
  bson_truthy (field (doc_out f) "URL") = true →
  ∃ s, field (doc_out f) "URL" = BStr s
       ∧ key (doc_out f) = [("URL", BStr s)].
Proof.
  intros Ht. unfold key. rewrite Ht.
  unfold field in *. rewrite url_of_doc_out in *. cbn in *.
  destruct (Str.nonempty (url f)); [eauto | discriminate].
Qed.

Lemma urls_insert (c : list doc) (i : nat) (d : doc) :
  Spec.urls (<[i := d]> c) = <[i := field d "URL"]> (Spec.urls c).
Proof.
  unfold Spec.urls. exact (list_fmap_insert (fun x => field x "URL") c i d).
Qed.

(** Saving keeps the shape of the stored documents and keeps URLs that are
    not empty apart. *)
Lemma upsert_preserves (f : form) (c : list doc) (oid : nat) :
  Forall Spec.stored c → Spec.url_unique c →
  Forall Spec.stored
    (Mongo.update_one_upsert (key (doc_out f)) (doc_out f) c oid).1
  ∧ Spec.url_unique
      (Mongo.update_one_upsert (key (doc_out f)) (doc_out f) c oid).1.
Proof.
  intros Hst Hun. unfold Mongo.update_one_upsert.
  destruct (Mongo.update_first _ _ c) as [c'|] eqn:Hu; cbn [fst].
  - destruct (update_first_some _ _ _ _ Hu) as (i & old & Hi & Hp & _ & ->).
    assert (Hold : Spec.stored old) by (eapply Forall_lookup_1; eassumption).
    rewrite (set_over_stored f old Hold).
    destruct Hold as (f0 & n & Hold).
    assert (Hid : field old "_id" = BOid n).
    { subst old. unfold field. now rewrite lookup_insert_eq. }
    rewrite Hid. split.
    + apply Forall_insert; [exact Hst|]. now exists f, n.
    + apply url_unique_urls. rewrite urls_insert, stored_field by discriminate.
      apply url_unique_urls in Hun.
      destruct (bson_truthy (field (doc_out f) "URL")) eqn:Ht.
      * destruct (key_of_url f Ht) as (s & Hs & Hk). rewrite Hk in Hp.
        rewrite matches_url_stored in Hp by (now exists f0, n).
        apply bool_decide_eq_true in Hp. rewrite Hs, <- Hp.
        rewrite list_insert_id; [exact Hun|].
        unfold Spec.urls. now rewrite list_lookup_fmap, Hi.
      * now apply distinct_insert_falsy.
  - rewrite inserted_doc. split.
    + apply Forall_app. split; [exact Hst|]. apply Forall_singleton.
      now exists f, oid.
    + apply url_unique_urls. unfold Spec.urls. rewrite fmap_app. cbn [fmap list_fmap].
      rewrite stored_field by discriminate.
      apply distinct_snoc; [now apply url_unique_urls|].
      intros Ht Hin. destruct (key_of_url f Ht) as (s & Hs & Hk).
      rewrite Hk in Hu. apply update_first_none in Hu.
      apply list_elem_of_fmap in Hin as (x & Hx & Hxc).
      rewrite Forall_forall in Hu, Hst.
      specialize (Hu x Hxc). rewrite matches_url_stored in Hu by auto.
      apply bool_decide_eq_false in Hu. congruence.
Qed.

(** ** What touches the Data-Set collection *)

Lemma keeps_ret {A} (a : A) : keeps_data_set (mret a : M A).
Proof. intros w. reflexivity. Qed.

Lemma keeps_lift {A} (r : res A) : keeps_data_set (lift r).
Proof. intros w. reflexivity. Qed.

Lemma keeps_bind {A B} (m : M A) (f : A → M B) :
  keeps_data_set m → (∀ a, keeps_data_set (f a)) → keeps_data_set (m ≫= f).
Proof.
  intros Hm Hf w. unfold_monad. specialize (Hm w).
  destruct (m w) as [[a|e] w1]; cbn [snd] in *.
  - rewrite (Hf a w1). exact Hm.
  - exact Hm.
Qed.

Lemma keeps_try {A} (body : M A) (caught : exn → bool) (handler : exn → M A) :
  keeps_data_set body → (∀ e, keeps_data_set (handler e)) →
  keeps_data_set (try_except body caught handler).
Proof.
  intros Hb Hh w. unfold try_except. specialize (Hb w).
  destruct (body w) as [[a|e] w1]; cbn [snd] in *; [exact Hb|].
  destruct (caught e); cbn [snd]; [|exact Hb].
  rewrite (Hh e w1). exact Hb.
Qed.

Lemma keeps_ensure (b : backend) : keeps_data_set (ensure_connection b).
Proof. intros w. apply ensure_connection_keeps. Qed.

Lemma keeps_bound_col : keeps_data_set bound_col.
Proof. intros w. unfold bound_col. now destruct (col w). Qed.

Lemma keeps_command {A} (b : backend) (f : M A) :
  keeps_data_set f → keeps_data_set (command b f).
Proof.
  intros Hf w. unfold command. destruct (command_fault b); [reflexivity|apply Hf].
Qed.

Lemma keeps_st_error (msg : string) (e : exn) : keeps_data_set (st_error msg e).
Proof. intros w. reflexivity. Qed.

Ltac keeps :=
  repeat first
    [ apply keeps_try | apply keeps_bind | apply keeps_command
    | apply keeps_ensure | apply keeps_bound_col | apply keeps_st_error
    | apply keeps_ret | apply keeps_lift | intro ].

Lemma keeps_load_df (b : backend) : keeps_data_set (load_df b).
Proof. unfold load_df, load_df_body. keeps. Qed.

Lemma keeps_sample_docs (b : backend) (k : Z) : keeps_data_set (sample_docs b k).
Proof.
  unfold sample_docs, sample_docs_body. keeps.
  unfold aggregate_sample. now destruct (k <=? 0).
Qed.

Lemma keeps_delete_one (b : backend) (i : Z) : keeps_data_set (delete_one_by_id b i).
Proof.
  unfold delete_one_by_id, delete_one_by_id_body. keeps.
  unfold delete_one. now destruct (remove_first i _).
Qed.

Lemma keeps_delete_many (b : backend) (ids : list bson) :
  keeps_data_set (delete_many_by_ids b ids).
Proof.
  unfold delete_many_by_ids, delete_many_by_ids_body. keeps. reflexivity.
Qed.

Lemma keeps_draw (b1 b2 : backend) (k : Z) :
  keeps_data_set (draw_and_delete b1 b2 k).
Proof.
  unfold draw_and_delete.
  apply keeps_bind; [apply keeps_sample_docs|]. intros sdocs.
  apply keeps_bind; [apply keeps_lift|]. intros ids. apply keeps_delete_many.
Qed.

Lemma keeps_test (b : backend) : keeps_data_set (test_connection b).
Proof. unfold test_connection. keeps. Qed.

(** A save either fails and changes nothing, or runs the upsert. *)
Lemma save_data_set (b : backend) (f : form) (w : world) :
  data_set (save_to_data_set b f w).2 = data_set w
  ∨ data_set (save_to_data_set b f w).2 =
    (Mongo.update_one_upsert (key (doc_out f)) (doc_out f)
       (data_set w) (next_oid w)).1.
Proof.
  unfold save_to_data_set, try_except, save_body. rewrite connect_then.
  destruct (ensure_connection_keeps b w) as (_ & Hd & Hn & _).
  destruct (ensure_connection b w) as [[[]|e] w1]; cbn [snd] in *.
  - destruct (col w1); [|left; exact Hd].
    unfold command. destruct (command_fault b); [left; exact Hd|].
    unfold ds_update_one. rewrite Hd, Hn.
    destruct (Mongo.update_one_upsert _ _ _ _) as [c oid]. right. reflexivity.
  - left. exact Hd.
Qed.

Lemma save_healthy (b : backend) (f : form) (w : world) :
  healthy b → stuck w = false →
  save_to_data_set b f w =
  (Ok tt,
   set_data_set
     (Mongo.update_one_upsert (key (doc_out f)) (doc_out f)
        (data_set w) (next_oid w)).1
     (Mongo.update_one_upsert (key (doc_out f)) (doc_out f)
        (data_set w) (next_oid w)).2
     (connected w)).
Proof.
  intros Hb Hw. unfold save_to_data_set, try_except, save_body.
  rewrite connect_then_healthy, command_healthy by assumption.
  unfold ds_update_one. rewrite data_set_connected, next_oid_connected.
  now destruct (Mongo.update_one_upsert _ _ _ _).
Qed.

(** Every reachable Data-Set collection holds documents of the saved shape,
    at most one per URL that is not empty. *)
Lemma reachable_data_set (w : world) :
  reachable w → Forall Spec.stored (data_set w) ∧ Spec.url_unique (data_set w).
Proof.
  induction 1 as [p|b w _ IH|b i w _ IH|b w _ IH|b k w _ IH|b1 b2 k w _ IH
                 |b f w _ IH].
  - cbn. split; [constructor|]. intros i j di dj Hi. rewrite lookup_nil in Hi.
    discriminate.
  - now rewrite keeps_test.
  - now rewrite keeps_delete_one.
  - now rewrite keeps_load_df.
  - now rewrite keeps_sample_docs.
  - now rewrite keeps_draw.
  - destruct (save_data_set b f w) as [-> | ->]; [exact IH|].
    now apply upsert_preserves.
Qed.

(** C6: the document the save operation writes holds exactly the fields of
    a DataSetRecord, so never the key "Budget"; and every document of a
    Data-Set collection that the application has written holds those fields
    and its [_id], and no "Budget". *)
Theorem data_set_documents_have_no_budget (w : world) (f : form) :
  reachable w →
  dom (doc_out f) = Spec.tracked
  ∧ ("Budget" ∉ dom (doc_out f))
  ∧ Forall (fun d => dom d = Spec.tracked ∪ {["_id"]} ∧ "Budget" ∉ dom d)
      (data_set w).
Proof.
  intros Hw.
  assert (Hb : "Budget" ∉ Spec.tracked ∪ ({["_id"]} : gset string)).
  { unfold Spec.tracked. rewrite !elem_of_union, !elem_of_singleton.
    intuition discriminate. }
  split_and!.
  - apply dom_doc_out.
  - rewrite dom_doc_out. intros H. apply Hb. apply elem_of_union. now left.
  - destruct (reachable_data_set w Hw) as [Hst _].
    eapply Forall_impl; [exact Hst|]. intros d Hd. cbn.
    rewrite (dom_stored d Hd). split; [reflexivity | exact Hb].
Qed.

Lemma data_set_documents_have_no_budget_witness :
  reachable ((save_to_data_set (reliable id) (Spec.entry "" "Foo" "drama")
                (start [])).2)
  ∧ dom (doc_out (Spec.entry "" "Foo" "drama")) = Spec.tracked
  ∧ ("Budget" ∉ dom (doc_out (Spec.entry "" "Foo" "drama")))
  ∧ Forall (fun d => dom d = Spec.tracked ∪ {["_id"]} ∧ "Budget" ∉ dom d)
      (data_set (save_to_data_set (reliable id) (Spec.entry "" "Foo" "drama")
                   (start [])).2).
Proof.
  assert (Hr : reachable ((save_to_data_set (reliable id)
                             (Spec.entry "" "Foo" "drama") (start [])).2)).
  { apply reach_save, reach_start. }
  split; [exact Hr|].
  exact (data_set_documents_have_no_budget _ (Spec.entry "" "Foo" "drama") Hr).
Defined.

(** C5, as amended: the upsert filters on URL when the record's URL is not
    empty, and otherwise on Movie and Year, against every stored record
    whatever its URL.  When no stored record matches, the record is created;
    otherwise all tracked fields of the first matching record are
    overwritten, under its [_id].  Either way the saved values are stored
    afterwards, and for a URL that is not empty they are the only record
    with that URL. *)
Theorem save_overwrites_or_creates (b : backend) (f : form) (w : world) :
  reachable w → healthy b → stuck w = false →
  key (doc_out f) =
    (if bson_truthy (field (doc_out f) "URL")
     then [("URL", field (doc_out f) "URL")]
     else [("Movie", field (doc_out f) "Movie");
           ("Year", field (doc_out f) "Year")])
  ∧ (Forall (fun x => Mongo.matches (key (doc_out f)) x = false) (data_set w) →
     data_set (save_to_data_set b f w).2 =
       data_set w ++ [<["_id" := BOid (next_oid w)]> (doc_out f)])
  ∧ (∀ i old,
       data_set w !! i = Some old →
       Mongo.matches (key (doc_out f)) old = true →
       (∀ j x, (j < i)%nat → data_set w !! j = Some x →
               Mongo.matches (key (doc_out f)) x = false) →
       data_set (save_to_data_set b f w).2 =
         <[i := <["_id" := field old "_id"]> (doc_out f)]> (data_set w))
  ∧ (∃ i n,
       data_set (save_to_data_set b f w).2 !! i
         = Some (<["_id" := BOid n]> (doc_out f))
       ∧ (bson_truthy (field (doc_out f) "URL") = true →
          ∀ j x, data_set (save_to_data_set b f w).2 !! j = Some x →
                 field x "URL" = field (doc_out f) "URL" → j = i)).
Proof.
  intros Hr Hb Hw. rewrite save_healthy by assumption. cbn [snd data_set set_data_set].
  destruct (reachable_data_set w Hr) as [Hst Hun].
  destruct (upsert_preserves f (data_set w) (next_oid w) Hst Hun) as [_ Hun'].
  split_and!.
  - reflexivity.
  - intros Hnone. unfold Mongo.update_one_upsert.
    rewrite (proj2 (update_first_none _ _ _) Hnone). cbn [fst].
    now rewrite inserted_doc.
  - intros i old Hi Hp Hfirst. unfold Mongo.update_one_upsert.
    rewrite (update_first_at _ _ _ i old Hi Hp Hfirst). cbn [fst].
    rewrite set_over_stored; [reflexivity|].
    eapply Forall_lookup_1; eassumption.
  - assert (Hex : ∃ i n,
               (Mongo.update_one_upsert (key (doc_out f)) (doc_out f)
                  (data_set w) (next_oid w)).1 !! i
               = Some (<["_id" := BOid n]> (doc_out f))).
    { unfold Mongo.update_one_upsert.
      destruct (Mongo.update_first _ _ (data_set w)) as [c'|] eqn:Hu; cbn [fst].
      - destruct (update_first_some _ _ _ _ Hu) as (i & old & Hi & _ & _ & ->).
        assert (Hold : Spec.stored old) by (eapply Forall_lookup_1; eassumption).
        rewrite (set_over_stored f old Hold).
        destruct Hold as (f0 & n & ->). unfold field at 1.
        rewrite lookup_insert_eq. cbn [default]. exists i, n.
        apply list_lookup_insert_eq. eapply lookup_lt_Some, Hi.
      - rewrite inserted_doc. exists (length (data_set w)), (next_oid w).
        apply list_lookup_middle. reflexivity. }
    destruct Hex as (i & n & Hi). exists i, n. split; [exact Hi|].
    intros Ht j x Hj Hx. symmetry.
    apply (Hun' i j _ x Hi Hj).
    + now rewrite stored_field by discriminate.
    + rewrite stored_field by discriminate. congruence.
Qed.

Lemma save_overwrites_or_creates_witness :
  reachable (start []) ∧ healthy (reliable id) ∧ stuck (start []) = false
  ∧ data_set (save_to_data_set (reliable id)
                (Spec.entry "https://www.imdb.com/title/tt0000001/" "Bar" "")
                (start [])).2
    = [<["_id" := BOid 0]>
         (doc_out (Spec.entry "https://www.imdb.com/title/tt0000001/" "Bar" ""))].
Proof.
  assert (Hb : healthy (reliable id)) by (repeat split).
  split; [apply reach_start|]. split; [exact Hb|]. split; [reflexivity|].
  exact (proj1 (proj2 (save_overwrites_or_creates (reliable id)
                         (Spec.entry "https://www.imdb.com/title/tt0000001/"
                            "Bar" "")
                         (start []) (reach_start []) Hb eq_refl))
           (Forall_nil_2 _)).
Defined.

(** C5 as stated fails: after four saves two stored records have the key
    (Foo, 2020), and one of them does not hold the last call's values. *)
Lemma two_records_at_one_key :
  (fun d => field d "Genre")
    <$> Spec.records_at (Spec.identity (doc_out (Spec.entry "" "Foo" "drama")))
          (data_set Spec.four_saves)
  = [BList ["drama"]; BList []].
Proof. vm_compute. reflexivity. Qed.

Lemma four_saves_reachable : reachable Spec.four_saves.
Proof. unfold Spec.four_saves. repeat apply reach_save. apply reach_start. Qed.

(** Under the other reading of "at the key", the records the filter of the
    last save matches, there are two as well. *)
Lemma two_records_match_one_filter :
  length (List.filter (Mongo.matches (key (doc_out (Spec.entry "" "Foo" "drama"))))
            (data_set Spec.four_saves)) = 2%nat.
Proof. vm_compute. reflexivity. Qed.

(** The round trips of the specification, from the empty collection. *)
Example save_same_url_twice :
  data_set (save_to_data_set (reliable id)
              (Spec.entry "https://www.imdb.com/title/tt0000001/" "Foo" "drama")
              (save_to_data_set (reliable id)
                 (Spec.entry "https://www.imdb.com/title/tt0000001/" "Bar" "")
                 (start [])).2).2
  = [<["_id" := BOid 0]>
       (doc_out (Spec.entry "https://www.imdb.com/title/tt0000001/" "Foo" "drama"))].
Proof. vm_compute. reflexivity. Qed.

Example save_without_url_twice :
  data_set (save_to_data_set (reliable id) (Spec.entry "" "Foo" "drama")
              (save_to_data_set (reliable id) (Spec.entry "" "Foo" "")
                 (start [])).2).2
  = [<["_id" := BOid 0]> (doc_out (Spec.entry "" "Foo" "drama"))].
Proof. vm_compute. reflexivity. Qed.

(** Deleting an ID that is not there deletes nothing and shows no error. *)
Example delete_missing_id :
  delete_one_by_id (reliable id) 9
    (start [{| ID := 7; Movie := "Roma"; others := ∅ |}])
  = (Ok 0, connected (start [{| ID := 7; Movie := "Roma"; others := ∅ |}])).
Proof. reflexivity. Qed.

(** [save_movie_record] filters on the URL entry even when it is null: two
    films saved through it without URL end up as one record. *)
Example save_movie_record_without_url :
  (fun d => field d "Movie")
    <$> data_set (save_movie_record (reliable id) (doc_out (Spec.entry "" "Bar" ""))
                    (save_movie_record (reliable id)
                       (doc_out (Spec.entry "" "Foo" "")) (start [])).2).2
  = [BStr "Bar"].
Proof. vm_compute. reflexivity. Qed.

(* ===================================================================== *)
(** * Further properties of the code *)
(* ===================================================================== *)

(** ** Which collection an operation can change *)

Lemma shrinks_of_keeps {A} (m : M A) : keeps_population m → shrinks_population m.
Proof. intros H w. now rewrite H. Qed.

Lemma shrinks_bind {A B} (m : M A) (f : A → M B) :
  shrinks_population m → (∀ a, shrinks_population (f a)) →
  shrinks_population (m ≫= f).
Proof.
  intros Hm Hf w. unfold_monad. specialize (Hm w).
  destruct (m w) as [[a|e] w1]; cbn [snd] in *; [|exact Hm].
  etrans; [apply Hf | exact Hm].
Qed.

Lemma shrinks_try {A} (body : M A) (caught : exn → bool) (handler : exn → M A) :
  shrinks_population body → (∀ e, shrinks_population (handler e)) →
  shrinks_population (try_except body caught handler).
Proof.
  intros Hb Hh w. unfold try_except. specialize (Hb w).
  destruct (body w) as [[a|e] w1]; cbn [snd] in *; [exact Hb|].
  destruct (caught e); cbn [snd]; [|exact Hb].
  etrans; [apply Hh | exact Hb].
Qed.

Lemma shrinks_command {A} (b : backend) (f : M A) :
  shrinks_population f → shrinks_population (command b f).
Proof.
  intros Hf w. unfold command. destruct (command_fault b); [reflexivity|apply Hf].
Qed.

Lemma keeps_pop_ensure (b : backend) : keeps_population (ensure_connection b).
Proof. intros w. apply ensure_connection_keeps. Qed.

Lemma keeps_pop_bound_col : keeps_population bound_col.
Proof. intros w. unfold bound_col. now destruct (col w). Qed.

Lemma keeps_pop_st_error (msg : string) (e : exn) :
  keeps_population (st_error msg e).
Proof. intros w. reflexivity. Qed.

Lemma keeps_pop_ret {A} (a : A) : keeps_population (mret a : M A).
Proof. intros w. reflexivity. Qed.

Lemma keeps_pop_lift {A} (r : res A) : keeps_population (lift r).
Proof. intros w. reflexivity. Qed.

Lemma keeps_pop_bind {A B} (m : M A) (f : A → M B) :
  keeps_population m → (∀ a, keeps_population (f a)) →
  keeps_population (m ≫= f).
Proof.
  intros Hm Hf w. unfold_monad. specialize (Hm w).
  destruct (m w) as [[a|e] w1]; cbn [snd] in *; [|exact Hm].
  now rewrite Hf.
Qed.

Lemma keeps_pop_try {A} (body : M A) (caught : exn → bool) (handler : exn → M A) :
  keeps_population body → (∀ e, keeps_population (handler e)) →
  keeps_population (try_except body caught handler).
Proof.
  intros Hb Hh w. unfold try_except. specialize (Hb w).
  destruct (body w) as [[a|e] w1]; cbn [snd] in *; [exact Hb|].
  destruct (caught e); cbn [snd]; [|exact Hb].
  now rewrite Hh.
Qed.

Lemma keeps_pop_command {A} (b : backend) (f : M A) :
  keeps_population f → keeps_population (command b f).
Proof.
  intros Hf w. unfold command. destruct (command_fault b); [reflexivity|apply Hf].
Qed.

Ltac keeps_pop :=
  repeat first
    [ apply keeps_pop_try | apply keeps_pop_bind | apply keeps_pop_command
    | apply keeps_pop_ensure | apply keeps_pop_bound_col
    | apply keeps_pop_st_error | apply keeps_pop_ret | apply keeps_pop_lift
    | intro ].

Lemma keeps_pop_load_df (b : backend) : keeps_population (load_df b).
Proof. unfold load_df, load_df_body. keeps_pop. Qed.

Lemma keeps_pop_sample_docs (b : backend) (k : Z) :
  keeps_population (sample_docs b k).
Proof.
  unfold sample_docs, sample_docs_body. keeps_pop.
  unfold aggregate_sample. now destruct (k <=? 0).
Qed.

Lemma keeps_pop_test (b : backend) : keeps_population (test_connection b).
Proof. unfold test_connection. keeps_pop. Qed.

Lemma keeps_pop_save (b : backend) (f : form) :
  keeps_population (save_to_data_set b f).
Proof.
  unfold save_to_data_set, save_body. keeps_pop.
  unfold ds_update_one. now destruct (Mongo.update_one_upsert _ _ _ _).
Qed.

Lemma keeps_pop_save_movie_record (b : backend) (d : doc) :
  keeps_population (save_movie_record b d).
Proof.
  unfold save_movie_record. keeps_pop.
  unfold ds_update_one. now destruct (Mongo.update_one_upsert _ _ _ _).
Qed.

Lemma remove_first_sublist (i : Z) (p p' : list movie) :
  remove_first i p = Some p' → p' `sublist_of` p.
Proof.
  revert p'. induction p as [|d r IH]; intros p'; cbn [remove_first].
  - discriminate.
  - destruct (Mongo.matches _ _).
    + intros [= <-]. now apply sublist_cons.
    + intros (r' & Hr & ->)%fmap_Some. apply sublist_skip. now apply IH.
Qed.

Ltac shrinks :=
  repeat first
    [ apply shrinks_try | apply shrinks_bind | apply shrinks_command
    | (apply shrinks_of_keeps;
       first [ apply keeps_pop_ensure | apply keeps_pop_bound_col
             | apply keeps_pop_st_error | apply keeps_pop_ret
             | apply keeps_pop_lift ])
    | intro ].

Lemma shrinks_delete_one (b : backend) (i : Z) :
  shrinks_population (delete_one_by_id b i).
Proof.
  unfold delete_one_by_id, delete_one_by_id_body. shrinks.
  unfold delete_one. destruct (remove_first i _) eqn:Hr; cbn; [|reflexivity].
  now apply remove_first_sublist in Hr.
Qed.

Lemma shrinks_delete_many (b : backend) (ids : list bson) :
  shrinks_population (delete_many_by_ids b ids).
Proof.
  unfold delete_many_by_ids, delete_many_by_ids_body. shrinks.
  unfold delete_many. cbn. apply sublist_filter.
Qed.

Lemma shrinks_draw (b1 b2 : backend) (k : Z) :
  shrinks_population (draw_and_delete b1 b2 k).
Proof.
  unfold draw_and_delete.
  apply shrinks_bind; [apply shrinks_of_keeps, keeps_pop_sample_docs|].
  intros sdocs. apply shrinks_bind; [apply shrinks_of_keeps, keeps_pop_lift|].
  intros ids. apply shrinks_delete_many.
Qed.

Lemma step_population (w w' : world) :
  step w w' → population w' `sublist_of` population w.
Proof.
  destruct 1.
  - now rewrite keeps_pop_test.
  - apply shrinks_delete_one.
  - apply shrinks_delete_many.
  - now rewrite keeps_pop_load_df.
  - now rewrite keeps_pop_sample_docs.
  - apply shrinks_draw.
  - now rewrite keeps_pop_save.
Qed.

Lemma rtc_population (w0 w : world) :
  rtc step w0 w → population w `sublist_of` population w0.
Proof.
  induction 1 as [w|w1 w2 w3 Hstep _ IH]; [reflexivity|].
  etrans; [exact IH | now apply step_population].
Qed.

(** X1: whatever the operations and however the backend behaves, the
    Population collection only loses records: after any run from a loaded
    collection it is a sub-list of that collection, in the same order, so
    no record is ever added, changed or moved, and distinct IDs stay
    distinct. *)
Theorem population_only_shrinks (p : list movie) (w : world) :
  rtc step (start p) w →
  population w `sublist_of` p
  ∧ (NoDup (ID <$> p) → NoDup (ID <$> population w)).
Proof.
  intros Hrun.
  assert (Hsub : population w `sublist_of` p).
  { apply (rtc_population (start p) w Hrun). }
  split; [exact Hsub|].
  intros Hnd. apply (sublist_NoDup _ _ Hnd). now apply fmap_sublist.
Qed.

Lemma population_only_shrinks_witness :
  rtc step (start [{| ID := 7; Movie := "Roma"; others := ∅ |};
                   {| ID := 2; Movie := "Volver"; others := ∅ |}])
    (delete_one_by_id (reliable id) 7
       (start [{| ID := 7; Movie := "Roma"; others := ∅ |};
               {| ID := 2; Movie := "Volver"; others := ∅ |}])).2
  ∧ population (delete_one_by_id (reliable id) 7
       (start [{| ID := 7; Movie := "Roma"; others := ∅ |};
               {| ID := 2; Movie := "Volver"; others := ∅ |}])).2
    `sublist_of` [{| ID := 7; Movie := "Roma"; others := ∅ |};
                  {| ID := 2; Movie := "Volver"; others := ∅ |}].
Proof.
  assert (H : rtc step
                (start [{| ID := 7; Movie := "Roma"; others := ∅ |};
                        {| ID := 2; Movie := "Volver"; others := ∅ |}])
                (delete_one_by_id (reliable id) 7
                   (start [{| ID := 7; Movie := "Roma"; others := ∅ |};
                           {| ID := 2; Movie := "Volver"; others := ∅ |}])).2).
  { apply rtc_once, step_delete. }
  split; [exact H|].
  exact (proj1 (population_only_shrinks _ _ H)).
Defined.

(** X2: the two collections are kept apart on every backend: listing,
    sampling, the deletions, draw-and-delete and the connection test leave
    the Data-Set collection as it was, and both save paths leave the
    Population collection as it was. *)
Theorem collections_are_kept_apart (b b' : backend) (k i : Z)
    (ids : list bson) (f : form) (d : doc) (w : world) :
  data_set (load_df b w).2 = data_set w
  ∧ data_set (sample_docs b k w).2 = data_set w
  ∧ data_set (delete_one_by_id b i w).2 = data_set w
  ∧ data_set (delete_many_by_ids b ids w).2 = data_set w
  ∧ data_set (draw_and_delete b b' k w).2 = data_set w
  ∧ data_set (test_connection b w).2 = data_set w
  ∧ population (save_to_data_set b f w).2 = population w
  ∧ population (save_movie_record b d w).2 = population w
  ∧ population (load_df b w).2 = population w
  ∧ population (sample_docs b k w).2 = population w.
Proof.
  split_and!.
  - apply keeps_load_df.
  - apply keeps_sample_docs.
  - apply keeps_delete_one.
  - apply keeps_delete_many.
  - apply keeps_draw.
  - apply keeps_test.
  - apply keeps_pop_save.
  - apply keeps_pop_save_movie_record.
  - apply keeps_pop_load_df.
  - apply keeps_pop_sample_docs.
Qed.

(** ** Deleting *)

Lemma remove_first_absent (i : Z) (p : list movie) :
  i ∉ ID <$> p → remove_first i p = None.
Proof.
  induction p as [|d r IH]; intros Hi; [reflexivity|].
  cbn [remove_first]. rewrite matches_id.
  rewrite fmap_cons, not_elem_of_cons in Hi. destruct Hi as [Hne Hr].
  rewrite bool_decide_eq_false_2 by congruence. now rewrite IH.
Qed.

Lemma remove_first_present (i : Z) (l1 l2 : list movie) (d : movie) :
  ID d = i → i ∉ ID <$> l1 →
  remove_first i (l1 ++ d :: l2) = Some (l1 ++ l2).
Proof.
  intros Hd. induction l1 as [|x l1 IH]; intros Hi.
  - cbn [app remove_first]. rewrite matches_id.
    now rewrite bool_decide_eq_true_2.
  - rewrite fmap_cons, not_elem_of_cons in Hi. destruct Hi as [Hne Hr].
    cbn [app remove_first]. rewrite matches_id.
    rewrite bool_decide_eq_false_2 by congruence. now rewrite IH.
Qed.

Lemma delete_one_by_id_healthy (b : backend) (i : Z) (w : world) :
  healthy b → stuck w = false →
  delete_one_by_id b i w =
  match remove_first i (population w) with
  | Some p => (Ok 1, set_population p (connected w))
  | None => (Ok 0, connected w)
  end.
Proof.
  intros Hb Hw. unfold delete_one_by_id, try_except, delete_one_by_id_body.
  rewrite connect_then_healthy, command_healthy by assumption.
  unfold delete_one. rewrite population_connected.
  now destruct (remove_first i (population w)).
Qed.

(** X3: on a backend that answers, [delete_one_by_id] returns 0 and changes
    nothing when no record has the ID; otherwise it returns 1 and removes
    the first record with that ID, leaving every other record in place and
    in order.  When the IDs are distinct the ID is gone afterwards. *)
Theorem delete_one_by_id_removes_first (b : backend) (i : Z) (w : world) :
  healthy b → stuck w = false →
  (i ∉ ID <$> population w → delete_one_by_id b i w = (Ok 0, connected w))
  ∧ (∀ l1 d l2,
       population w = l1 ++ d :: l2 → ID d = i → i ∉ ID <$> l1 →
       delete_one_by_id b i w = (Ok 1, set_population (l1 ++ l2) (connected w)))
  ∧ (NoDup (ID <$> population w) →
     i ∉ ID <$> population (delete_one_by_id b i w).2).
Proof.
  intros Hb Hw. rewrite delete_one_by_id_healthy by assumption. split_and!.
  - intros Hi. now rewrite remove_first_absent.
  - intros l1 d l2 Hp Hd Hi. now rewrite Hp, (remove_first_present i l1 l2 d).
  - intros Hnd. destruct (decide (i ∈ ID <$> population w)) as [Hin|Hout].
    + apply list_elem_of_fmap in Hin as (d & Hd & Hin).
      assert (Hsplit : ∃ l1 l2, population w = l1 ++ d :: l2).
      { now apply list_elem_of_split. }
      destruct Hsplit as (l1 & l2 & Hp).
      rewrite Hp, fmap_app, fmap_cons in Hnd.
      apply NoDup_app in Hnd as (_ & Hdisj & Hnd2).
      apply NoDup_cons in Hnd2 as [Hd2 _].
      assert (Hl1 : i ∉ ID <$> l1).
      { intros Hi. apply (Hdisj _ Hi). rewrite Hd. left. }
      rewrite Hp, (remove_first_present i l1 l2 d (eq_sym Hd) Hl1).
      cbn [snd population set_population]. rewrite fmap_app, elem_of_app.
      intros [H|H]; [now apply Hl1|]. apply Hd2. now rewrite <- Hd.
    + rewrite remove_first_absent by assumption. cbn [snd].
      now rewrite population_connected.
Qed.

Lemma delete_one_by_id_removes_first_witness :
  healthy (reliable id)
  ∧ delete_one_by_id (reliable id) 2
      (start [{| ID := 7; Movie := "Roma"; others := ∅ |};
              {| ID := 2; Movie := "Volver"; others := ∅ |};
              {| ID := 5; Movie := "Biutiful"; others := ∅ |}])
    = (Ok 1,
       set_population [{| ID := 7; Movie := "Roma"; others := ∅ |};
                       {| ID := 5; Movie := "Biutiful"; others := ∅ |}]
         (connected (start [{| ID := 7; Movie := "Roma"; others := ∅ |};
                            {| ID := 2; Movie := "Volver"; others := ∅ |};
                            {| ID := 5; Movie := "Biutiful"; others := ∅ |}]))).
Proof.
  assert (Hb : healthy (reliable id)) by (repeat split).
  split; [exact Hb|].
  refine (proj1 (proj2 (delete_one_by_id_removes_first (reliable id) 2
                          (start [{| ID := 7; Movie := "Roma"; others := ∅ |};
                                  {| ID := 2; Movie := "Volver"; others := ∅ |};
                                  {| ID := 5; Movie := "Biutiful"; others := ∅ |}])
                          Hb eq_refl))
            [{| ID := 7; Movie := "Roma"; others := ∅ |}]
            {| ID := 2; Movie := "Volver"; others := ∅ |}
            [{| ID := 5; Movie := "Biutiful"; others := ∅ |}]
            eq_refl eq_refl _).
  cbn. rewrite elem_of_cons, elem_of_nil. intros [H|[]]. discriminate.
Defined.

Lemma ints_of_ints (ids : list Z) : ints_of (BInt <$> ids) = Ok ids.
Proof.
  induction ids as [|x ids IH]; [reflexivity|].
  cbn [fmap list_fmap ints_of py_int rbind].
  change (list_fmap Z bson BInt ids) with (BInt <$> ids).
  now rewrite IH.
Qed.

Lemma kept_filter (ids : list Z) (p : list movie) :
  filter (fun d => ¬ id_in ids d) p = filter (fun d => ID d ∉ ids) p.
Proof. apply list_filter_iff. intros d. now rewrite id_in_spec. Qed.

Lemma deleted_count (ids : list Z) (p : list movie) :
  Z.of_nat (length p) - Z.of_nat (length (filter (fun d => ID d ∉ ids) p))
  = Z.of_nat (length (filter (fun d => ID d ∈ ids) p)).
Proof.
  pose proof (filter_app_complement (fun d => ID d ∈ ids) p) as H.
  apply Permutation_length in H. rewrite length_app in H. lia.
Qed.

Lemma delete_many_healthy (b : backend) (ids : list Z) (w : world) :
  healthy b → stuck w = false →
  delete_many_by_ids b (BInt <$> ids) w =
  (Ok (Z.of_nat (length (filter (fun d => ID d ∈ ids) (population w)))),
   set_population (filter (fun d => ID d ∉ ids) (population w)) (connected w)).
Proof.
  intros Hb Hw. unfold delete_many_by_ids, try_except, delete_many_by_ids_body.
  rewrite connect_then_healthy by assumption.
  unfold_monad. rewrite ints_of_ints, command_healthy by assumption.
  unfold delete_many. rewrite population_connected, kept_filter.
  now rewrite deleted_count.
Qed.

Lemma filter_filter_out (ids : list Z) (p : list movie) :
  filter (fun d => ID d ∈ ids) (filter (fun d => ID d ∉ ids) p) = [].
Proof.
  apply filter_none. intros d Hd Hin.
  apply list_elem_of_filter in Hd as [Hout _]. now apply Hout.
Qed.

(** X4: on a backend that answers, [delete_many_by_ids] with integer IDs
    deletes exactly the records whose ID is among them, whether or not
    every ID is present, returns their number and keeps the other records
    in order; deleting the same IDs again deletes nothing and returns 0. *)
Theorem delete_many_by_ids_removes_matching (b b' : backend) (ids : list Z)
    (w : world) :
  healthy b → healthy b' → stuck w = false →
  (delete_many_by_ids b (BInt <$> ids) w).1
    = Ok (Z.of_nat (length (filter (fun d => ID d ∈ ids) (population w))))
  ∧ population (delete_many_by_ids b (BInt <$> ids) w).2
    = filter (fun d => ID d ∉ ids) (population w)
  ∧ (delete_many_by_ids b' (BInt <$> ids)
       (delete_many_by_ids b (BInt <$> ids) w).2).1 = Ok 0
  ∧ population (delete_many_by_ids b' (BInt <$> ids)
                  (delete_many_by_ids b (BInt <$> ids) w).2).2
    = filter (fun d => ID d ∉ ids) (population w).
Proof.
  intros Hb Hb' Hw. rewrite (delete_many_healthy b) by assumption.
  cbn [fst snd population set_population].
  assert (Hw1 : stuck (set_population (filter (fun d => ID d ∉ ids) (population w))
                         (connected w)) = false).
  { apply (stuck_connected w Hw). }
  rewrite (delete_many_healthy b') by assumption.
  cbn [fst snd population set_population]. rewrite filter_filter_out.
  split_and!; try reflexivity.
  apply filter_all. intros d Hd. now apply list_elem_of_filter in Hd as [? _].
Qed.

Lemma delete_many_by_ids_removes_matching_witness :
  healthy (reliable id)
  ∧ (delete_many_by_ids (reliable id) (BInt <$> [5; 9; 7])
       (start [{| ID := 7; Movie := "Roma"; others := ∅ |};
               {| ID := 2; Movie := "Volver"; others := ∅ |};
               {| ID := 5; Movie := "Biutiful"; others := ∅ |}])).1
    = Ok 2.
Proof.
  assert (Hb : healthy (reliable id)) by (repeat split).
  split; [exact Hb|].
  exact (proj1 (delete_many_by_ids_removes_matching (reliable id) (reliable id)
                  [5; 9; 7]
                  (start [{| ID := 7; Movie := "Roma"; others := ∅ |};
                          {| ID := 2; Movie := "Volver"; others := ∅ |};
                          {| ID := 5; Movie := "Biutiful"; others := ∅ |}])
                  Hb Hb eq_refl)).
Defined.

(** X5: when one of the IDs is something [int] rejects, such as a null,
    [delete_many_by_ids] deletes nothing at all, not even the records of the
    IDs that are fine: it shows an error and returns 0, on every backend. *)
Theorem delete_many_by_ids_all_or_nothing (b : backend) (ids : list bson)
    (w : world) (e : exn) :
  ints_of ids = Raise e →
  ∃ e' w', delete_many_by_ids b ids w
           = (Ok 0, report "Bulk delete failed" e' w')
           ∧ population w' = population w.
Proof.
  intros Hids.
  assert (Hbody : ∃ e' w', delete_many_by_ids_body b ids w = (Raise e', w')).
  { unfold delete_many_by_ids_body. rewrite connect_then.
    destruct (ensure_connection b w) as [[[]|e0] w1]; [|eauto].
    destruct (col w1); [|eauto]. unfold_monad. rewrite Hids. eauto. }
  destruct Hbody as (e' & w' & Hbody). exists e', w'.
  destruct (delete_many_body_fault _ _ _ _ _ Hbody) as [(Hp & _) _].
  unfold delete_many_by_ids, try_except. now rewrite Hbody.
Qed.

Lemma delete_many_by_ids_all_or_nothing_witness :
  ints_of [BInt 7; BNull] = Raise TypeError
  ∧ ∃ e' w', delete_many_by_ids (reliable id) [BInt 7; BNull]
               (start [{| ID := 7; Movie := "Roma"; others := ∅ |}])
             = (Ok 0, report "Bulk delete failed" e' w')
             ∧ population w' = [{| ID := 7; Movie := "Roma"; others := ∅ |}].
Proof.
  split; [reflexivity|].
  exact (delete_many_by_ids_all_or_nothing (reliable id) [BInt 7; BNull]
           (start [{| ID := 7; Movie := "Roma"; others := ∅ |}])
           TypeError eq_refl).
Defined.

(** ** The connection globals *)










Lemma failed_ping (b : backend) (e : exn) (w : world) :
  client w = false → connect_fault b = None → ping_fault b = Some e →
  ensure_connection b w = (Raise e, set_client w).
Proof.
  intros Hc Hconn Hping. unfold ensure_connection.
  now rewrite Hc, Hconn, Hping.
Qed.

Lemma failed_ping_then {A} (b : backend) (e : exn) (f : M A) (w : world) :
  client w = false → connect_fault b = None → ping_fault b = Some e →
  (ensure_connection b;; bound_col;; f) w = (Raise e, set_client w).
Proof.
  intros Hc Hconn Hping. rewrite connect_then.
  now rewrite (failed_ping b e w).
Qed.

(** X7: a ping that fails on the first use leaves the application in that
    state, whichever operation made the attempt: the client was bound
    before the ping and is not unbound after it. *)
Theorem failed_ping_leaves_stuck (b : backend) (e : exn) (k i : Z)
    (ids : list bson) (f : form) (w : world) :
  client w = false → col w = false →
  connect_fault b = None → ping_fault b = Some e →
  stuck (test_connection b w).2 = true
  ∧ stuck (load_df b w).2 = true
  ∧ stuck (sample_docs b k w).2 = true
  ∧ stuck (delete_one_by_id b i w).2 = true
  ∧ stuck (delete_many_by_ids b ids w).2 = true
  ∧ stuck (save_to_data_set b f w).2 = true.
Proof.
  intros Hc Hcol Hconn Hping.
  assert (Hs : stuck (set_client w) = true).
  { unfold stuck. cbn. now rewrite Hcol. }
  split_and!.
  - unfold test_connection, try_except.
    now rewrite (failed_ping b e w).
  - unfold load_df, try_except, load_df_body.
    rewrite (failed_ping_then b e) by assumption.
    now destruct (connectivity_error e).
  - unfold sample_docs, try_except, sample_docs_body.
    now rewrite (failed_ping_then b e).
  - unfold delete_one_by_id, try_except, delete_one_by_id_body.
    now rewrite (failed_ping_then b e).
  - unfold delete_many_by_ids, try_except, delete_many_by_ids_body.
    now rewrite (failed_ping_then b e).
  - unfold save_to_data_set, try_except, save_body.
    now rewrite (failed_ping_then b e).
Qed.

Lemma failed_ping_leaves_stuck_witness :
  stuck (load_df (unreachable ServerSelectionTimeoutError) (start [])).2 = true.
Proof.
  exact (proj1 (proj2 (failed_ping_leaves_stuck
                         (unreachable ServerSelectionTimeoutError)
                         ServerSelectionTimeoutError 1 1 []
                         (Spec.entry "" "Foo" "") (start [])
                         eq_refl eq_refl eq_refl eq_refl))).
Defined.

(** ** Drawing and deleting at the edges *)

Lemma delete_nothing (b : backend) (w : world) :
  (delete_many_by_ids b [] w).1 = Ok 0
  ∧ population (delete_many_by_ids b [] w).2 = population w.
Proof.
  destruct (delete_many_by_ids_body b [] w) as [[n|e] w'] eqn:Hbody.
  - unfold delete_many_by_ids, try_except. rewrite Hbody. cbn [fst snd].
    revert Hbody. unfold delete_many_by_ids_body. rewrite connect_then.
    destruct (ensure_connection_keeps b w) as (Hp & _).
    destruct (ensure_connection b w) as [[[]|e0] w1]; [|discriminate].
    cbn [snd] in Hp. destruct (col w1); [|discriminate].
    unfold_monad. cbn [ints_of]. unfold command.
    destruct (command_fault b); [discriminate|].
    unfold delete_many. cbn [id_in existsb].
    rewrite (filter_all (fun d : movie => ¬ false)) by (intros ? _ []).
    intros [= <- <-]. cbn. split; [f_equal; lia | exact Hp].
  - destruct (delete_many_body_fault _ _ _ _ _ Hbody) as [(Hp & _) _].
    unfold delete_many_by_ids, try_except. rewrite Hbody. cbn. auto.
Qed.

(** X8: when the sample fails, whatever the fault, draw-and-delete deletes
    nothing: it returns 0 and the Population collection is as before, on
    every backend for the deletion. *)
Theorem draw_and_delete_after_failed_sample (b1 b2 : backend) (k : Z)
    (w w1 : world) (e : exn) :
  sample_docs_body b1 k w = (Raise e, w1) →
  (draw_and_delete b1 b2 k w).1 = Ok 0
  ∧ population (draw_and_delete b1 b2 k w).2 = population w.
Proof.
  intros Hbody.
  destruct (sample_docs_body_fault _ _ _ _ _ Hbody) as [(Hp & _) _].
  unfold draw_and_delete. unfold_monad.
  unfold sample_docs, try_except. rewrite Hbody. unfold_monad.
  cbn [any_exception ids_of].
  destruct (delete_nothing b2 (report "Sampling failed" e w1)) as [H1 H2].
  destruct (delete_many_by_ids b2 [] _) as [r w2]. cbn [fst snd] in *.
  split; [exact H1|]. rewrite H2. exact Hp.
Qed.

Lemma draw_and_delete_after_failed_sample_witness :
  sample_docs_body (refusing OperationFailure) 1
    (start [{| ID := 7; Movie := "Roma"; others := ∅ |}])
  = (Raise OperationFailure,
     connected (start [{| ID := 7; Movie := "Roma"; others := ∅ |}]))
  ∧ (draw_and_delete (refusing OperationFailure) (reliable id) 1
       (start [{| ID := 7; Movie := "Roma"; others := ∅ |}])).1 = Ok 0
  ∧ population (draw_and_delete (refusing OperationFailure) (reliable id) 1
                  (start [{| ID := 7; Movie := "Roma"; others := ∅ |}])).2
    = [{| ID := 7; Movie := "Roma"; others := ∅ |}].
Proof.
  split; [reflexivity|].
  exact (draw_and_delete_after_failed_sample (refusing OperationFailure)
           (reliable id) 1
           (start [{| ID := 7; Movie := "Roma"; others := ∅ |}]) _
           OperationFailure eq_refl).
Defined.

(** X9: a sample size that reaches the size of the collection, which the
    form allows when they are equal, makes draw-and-delete remove every
    record: it returns the size of the collection and leaves it empty. *)
Theorem draw_and_delete_whole_collection (b1 b2 : backend) (k : Z) (w : world) :
  healthy b1 → healthy b2 → stuck w = false →
  Z.of_nat (length (population w)) <= k →
  shuffle b1 (population w) ≡ₚ population w →
  (draw_and_delete b1 b2 k w).1 = Ok (Z.of_nat (length (population w)))
  ∧ population (draw_and_delete b1 b2 k w).2 = [].
Proof.
  intros Hb1 Hb2 Hw Hk Hsh.
  destruct (draw_and_delete_healthy b1 b2 k w Hb1 Hb2 Hw) as (w1 & Hrun & _).
  cbv zeta in Hrun. rewrite Hrun. cbn [fst snd population set_population].
  assert (Hkept : filter (fun d => ¬ id_in
                            (ID <$> (if k <=? 0 then []
                                     else take (Z.to_nat k)
                                            (shuffle b1 (population w)))) d)
                    (population w) = []).
  { apply filter_none. intros d Hd Hnot. apply Hnot, id_in_spec.
    destruct (Z.leb_spec k 0) as [Hle|Hgt].
    - destruct (population w); [inversion Hd | cbn in Hk; lia].
    - rewrite take_ge by (rewrite Hsh; lia).
      apply list_elem_of_fmap_2. now rewrite Hsh. }
  rewrite Hkept. split; [|reflexivity]. f_equal. cbn. lia.
Qed.

Lemma draw_and_delete_whole_collection_witness :
  healthy (reliable (@rev movie)) ∧ healthy (reliable id)
  ∧ (draw_and_delete (reliable (@rev movie)) (reliable id) 2
       (start [{| ID := 7; Movie := "Roma"; others := ∅ |};
               {| ID := 2; Movie := "Volver"; others := ∅ |}])).1 = Ok 2
  ∧ population (draw_and_delete (reliable (@rev movie)) (reliable id) 2
                  (start [{| ID := 7; Movie := "Roma"; others := ∅ |};
                          {| ID := 2; Movie := "Volver"; others := ∅ |}])).2 = [].
Proof.
  assert (Hb : ∀ sh, healthy (reliable sh)) by (intros; repeat split).
  split; [apply Hb|]. split; [apply Hb|].
  refine (draw_and_delete_whole_collection (reliable (@rev movie)) (reliable id) 2
            (start [{| ID := 7; Movie := "Roma"; others := ∅ |};
                    {| ID := 2; Movie := "Volver"; others := ∅ |}])
            (Hb _) (Hb _) eq_refl _ _).
  - cbn. lia.
  - symmetry. apply Permutation_rev.
Defined.

(** ** Saving again *)

Lemma value_matches_refl (v : bson) : Mongo.value_matches (Some v) v = true.
Proof. destruct v; cbn; now apply bool_decide_eq_true_2. Qed.

Lemma lookup_tracked_union (f : form) (x : doc) (k : string) :
  k ∈ Spec.tracked → (doc_out f ∪ x) !! k = Some (field (doc_out f) k).
Proof.
  intros Hk. destruct (doc_out_tracked f k Hk) as [v Hv].
  unfold field. rewrite Hv. cbn. now apply lookup_union_Some_l.
Qed.

(** What a save has written matches the filter of that save. *)
Lemma matches_own_key (f : form) (x : doc) :
  Mongo.matches (key (doc_out f)) (doc_out f ∪ x) = true.
Proof.
  unfold key, Mongo.matches.
  destruct (bson_truthy _); cbn [forallb];
    rewrite ?lookup_tracked_union, ?value_matches_refl; try reflexivity;
    unfold Spec.tracked; set_solver.
Qed.

Lemma union_same_fields (f1 f2 : form) (x : doc) :
  doc_out f2 ∪ (doc_out f1 ∪ x) = doc_out f2 ∪ x.
Proof.
  rewrite map_union_assoc.
  rewrite (union_absorb (doc_out f2) (doc_out f1)); [reflexivity|].
  now rewrite !dom_doc_out.
Qed.

Lemma upsert_twice (f1 f2 : form) (c : list doc) (oid : nat) :
  key (doc_out f1) = key (doc_out f2) →
  Mongo.update_one_upsert (key (doc_out f2)) (doc_out f2)
    (Mongo.update_one_upsert (key (doc_out f1)) (doc_out f1) c oid).1
    (Mongo.update_one_upsert (key (doc_out f1)) (doc_out f1) c oid).2
  = Mongo.update_one_upsert (key (doc_out f2)) (doc_out f2) c oid.
Proof.
  intros Hkey. unfold Mongo.update_one_upsert at 2 3. rewrite Hkey.
  destruct (Mongo.update_first (Mongo.matches (key (doc_out f2)))
              (fun d => doc_out f1 ∪ d) c) as [c'|] eqn:Hu; cbn [fst snd].
  - destruct (update_first_some _ _ _ _ Hu) as (i & old & Hi & Hp & Hfirst & ->).
    unfold Mongo.update_one_upsert.
    rewrite (update_first_at _ (fun d => doc_out f2 ∪ d) c i old Hi Hp Hfirst).
    rewrite (update_first_at _ (fun d => doc_out f2 ∪ d) _ i (doc_out f1 ∪ old)).
    + now rewrite list_insert_insert_eq, union_same_fields.
    + apply list_lookup_insert_eq. eapply lookup_lt_Some, Hi.
    + rewrite <- Hkey. apply matches_own_key.
    + intros j x Hj Hx. rewrite list_lookup_insert_ne in Hx by lia. eauto.
  - pose proof Hu as Hnone. apply update_first_none in Hnone.
    assert (Hu2 : Mongo.update_first (Mongo.matches (key (doc_out f2)))
                    (fun d => doc_out f2 ∪ d) c = None).
    { now apply update_first_none. }
    unfold Mongo.update_one_upsert. rewrite Hu2.
    assert (Hins : doc_out f1 ∪ (list_to_map (key (doc_out f2)) : doc)
                     ∪ {["_id" := BOid oid]}
                   = <["_id" := BOid oid]> (doc_out f1)).
    { rewrite <- Hkey. apply inserted_doc. }
    rewrite Hins, (inserted_doc f2 oid).
    rewrite (update_first_at _ (fun d => doc_out f2 ∪ d) _ (length c)
               (<["_id" := BOid oid]> (doc_out f1))).
    + rewrite insert_app_r_alt, Nat.sub_diag by lia.
      rewrite (union_overwrite (doc_out f2) (doc_out f1));
        [reflexivity | now rewrite !dom_doc_out | apply doc_out_no_id].
    + now apply list_lookup_middle.
    + rewrite <- Hkey.
      rewrite (insert_union_singleton_r (doc_out f1)) by apply doc_out_no_id.
      apply matches_own_key.
    + intros j x Hj Hx. rewrite lookup_app_l in Hx by lia.
      rewrite Forall_lookup in Hnone. eauto.
Qed.

(** X10: the later of two saves with the same filter wins, and nothing is
    duplicated: on a backend that answers, saving one form and then another
    with the same URL, or without URL and with the same Movie and Year,
    leaves the Data-Set collection exactly as saving the second form alone
    would; in particular saving a form twice is saving it once. *)
Theorem later_save_wins (b1 b2 : backend) (f1 f2 : form) (w : world) :
  healthy b1 → healthy b2 → stuck w = false →
  key (doc_out f1) = key (doc_out f2) →
  data_set (save_to_data_set b2 f2 (save_to_data_set b1 f1 w).2).2
    = data_set (save_to_data_set b2 f2 w).2
  ∧ next_oid (save_to_data_set b2 f2 (save_to_data_set b1 f1 w).2).2
    = next_oid (save_to_data_set b2 f2 w).2.
Proof.
  intros Hb1 Hb2 Hw Hkey.
  rewrite (save_healthy b1 f1 w) by assumption. cbn [snd].
  rewrite (save_healthy b2 f2 w) by assumption. cbn [snd].
  rewrite save_healthy by (assumption || apply (stuck_connected w Hw)).
  cbn [snd data_set next_oid set_data_set].
  now rewrite upsert_twice.
Qed.

Lemma later_save_wins_witness :
  healthy (reliable id)
  ∧ key (doc_out (Spec.entry " https://www.imdb.com/title/tt0000001/" "Bar" ""))
    = key (doc_out (Spec.entry "https://www.imdb.com/title/tt0000001/ " "Foo" "drama"))
  ∧ data_set (save_to_data_set (reliable id)
                (Spec.entry "https://www.imdb.com/title/tt0000001/ " "Foo" "drama")
                (save_to_data_set (reliable id)
                   (Spec.entry " https://www.imdb.com/title/tt0000001/" "Bar" "")
                   (start [])).2).2
    = data_set (save_to_data_set (reliable id)
                  (Spec.entry "https://www.imdb.com/title/tt0000001/ " "Foo" "drama")
                  (start [])).2.
Proof.
  assert (Hb : healthy (reliable id)) by (repeat split).
  split; [exact Hb|]. split; [reflexivity|].
  exact (proj1 (later_save_wins (reliable id) (reliable id)
                  (Spec.entry " https://www.imdb.com/title/tt0000001/" "Bar" "")
                  (Spec.entry "https://www.imdb.com/title/tt0000001/ " "Foo" "drama")
                  (start []) Hb Hb eq_refl eq_refl)).
Defined.




(** ** Comma-separated fields *)

Section Strip.

Variable sp : ascii → bool.

Lemma rstrip_idem (t : string) : Str.rstrip sp (Str.rstrip sp t) = Str.rstrip sp t.
Proof.
  induction t as [|a t IH]; [reflexivity|].
  cbn [Str.rstrip]. destruct (Str.rstrip sp t) as [|b r] eqn:Hr.
  - destruct (sp a) eqn:Ha; [reflexivity|]. cbn [Str.rstrip]. now rewrite Ha.
  - cbn [Str.rstrip]. cbn [Str.rstrip] in IH. rewrite IH. reflexivity.
Qed.

Lemma rstrip_head (a : ascii) (t : string) :
  sp a = false → ∃ t', Str.rstrip sp (String a t) = String a t'.
Proof.
  intros Ha. cbn [Str.rstrip]. destruct (Str.rstrip sp t); [|eauto].
  rewrite Ha. eauto.
Qed.

Lemma lstrip_cases (s : string) :
  Str.lstrip sp s = "" ∨ ∃ a t, Str.lstrip sp s = String a t ∧ sp a = false.
Proof.
  induction s as [|a t IH]; [now left|].
  cbn [Str.lstrip]. destruct (sp a) eqn:Ha; [exact IH|]. right. eauto.
Qed.

Lemma strip_idem_gen (s : string) :
  Str.rstrip sp (Str.lstrip sp (Str.rstrip sp (Str.lstrip sp s)))
  = Str.rstrip sp (Str.lstrip sp s).
Proof.
  destruct (lstrip_cases s) as [->|(a & t & -> & Ha)]; [reflexivity|].
  destruct (rstrip_head a t Ha) as [t' Ht]. rewrite Ht.
  cbn [Str.lstrip]. rewrite Ha, <- Ht. apply rstrip_idem.
Qed.

Variable c : ascii.

Lemma lstrip_no_char (s : string) :
  contains_char c s = false → contains_char c (Str.lstrip sp s) = false.
Proof.
  induction s as [|a t IH]; [reflexivity|].
  cbn [Str.lstrip]. destruct (sp a); [|auto].
  cbn [contains_char]. intros [_ H]%orb_false_elim. auto.
Qed.

Lemma rstrip_no_char (s : string) :
  contains_char c s = false → contains_char c (Str.rstrip sp s) = false.
Proof.
  induction s as [|a t IH]; [reflexivity|].
  cbn [contains_char]. intros [Ha Ht]%orb_false_elim. specialize (IH Ht).
  cbn [Str.rstrip]. destruct (Str.rstrip sp t) as [|b r].
  - destruct (sp a); [reflexivity|]. cbn [contains_char]. now rewrite Ha.
  - cbn [contains_char] in *. now rewrite Ha.
Qed.

End Strip.

Lemma strip_idem (s : string) : Str.strip (Str.strip s) = Str.strip s.
Proof. apply strip_idem_gen. Qed.

Lemma split_no_char (c : ascii) (s x : string) :
  x ∈ Str.split c s → contains_char c x = false.
Proof.
  revert x. induction s as [|a t IH]; intros x.
  - cbn [Str.split]. intros ->%list_elem_of_singleton. reflexivity.
  - cbn [Str.split]. destruct (Ascii.eqb a c) eqn:Ha.
    + intros [->|Hx]%elem_of_cons; [reflexivity | auto].
    + destruct (Str.split c t) as [|y r] eqn:Hs.
      * intros ->%list_elem_of_singleton. cbn. now rewrite Ha.
      * intros [->|Hx]%elem_of_cons.
        -- cbn [contains_char]. rewrite Ha. apply IH. left.
        -- apply IH. now right.
Qed.

Lemma to_list_elem (s x : string) :
  x ∈ to_list s →
  ∃ y, y ∈ Str.split "," s ∧ x = Str.strip y ∧ Str.strip y ≠ "".
Proof.
  unfold to_list. destruct (Str.nonempty s); [|now rewrite elem_of_nil].
  intros (y & -> & Hy)%list_elem_of_fmap.
  apply list_elem_of_In, List.filter_In in Hy as [Hy Hne].
  exists y. split; [now apply list_elem_of_In|]. split; [reflexivity|].
  unfold Str.nonempty in Hne. apply negb_true_iff in Hne.
  now apply String.eqb_neq in Hne.
Qed.

(** X12: every entry that [to_list] returns is a clean name: not empty,
    without white space at either end and without a comma; and an empty
    text gives no entry. *)
Theorem to_list_entries_are_clean (s : string) :
  Forall clean (to_list s) ∧ to_list "" = [].
Proof.
  split; [|reflexivity]. apply Forall_forall. intros x Hx.
  destruct (to_list_elem s x Hx) as (y & Hy & -> & Hne).
  split_and!.
  - exact Hne.
  - apply strip_idem.
  - unfold Str.strip. apply rstrip_no_char, lstrip_no_char.
    now apply (split_no_char "," s).
Qed.

Lemma split_piece (c : ascii) (x rest : string) :
  contains_char c x = false →
  Str.split c (x +:+ String c rest) = x :: Str.split c rest.
Proof.
  induction x as [|a t IH]; intros Hx.
  - cbn. now rewrite Ascii.eqb_refl.
  - cbn [contains_char] in Hx. apply orb_false_elim in Hx as [Ha Ht].
    cbn [String.append Str.split]. rewrite Ha, (IH Ht). reflexivity.
Qed.

Lemma split_whole (c : ascii) (x : string) :
  contains_char c x = false → Str.split c x = [x].
Proof.
  induction x as [|a t IH]; intros Hx; [reflexivity|].
  cbn [contains_char] in Hx. apply orb_false_elim in Hx as [Ha Ht].
  cbn [Str.split]. now rewrite Ha, (IH Ht).
Qed.

Lemma contains_char_app (c : ascii) (s t : string) :
  contains_char c (s +:+ t) = contains_char c s || contains_char c t.
Proof.
  induction s as [|a s IH]; [reflexivity|].
  cbn [String.append contains_char]. now rewrite IH, orb_assoc.
Qed.

Lemma padded_clean (pad x : string) :
  pad = "" ∨ pad = " " → clean x →
  Str.strip (pad +:+ x) = x
  ∧ Str.nonempty (Str.strip (pad +:+ x)) = true
  ∧ contains_char "," (pad +:+ x) = false.
Proof.
  intros Hpad (Hne & Hstrip & Hcomma).
  assert (Hs : Str.strip (pad +:+ x) = x).
  { destruct Hpad as [-> | ->]; [exact Hstrip|].
    unfold Str.strip in *. cbn [String.append Str.lstrip].
    change (Re.is_space " ") with true. cbv iota. exact Hstrip. }
  split_and!.
  - exact Hs.
  - rewrite Hs. unfold Str.nonempty. apply negb_true_iff.
    now apply String.eqb_neq.
  - rewrite contains_char_app, Hcomma.
    destruct Hpad as [-> | ->]; reflexivity.
Qed.

Lemma entries_joined (pad' : string) (l : list string) :
  pad' = "" ∨ pad' = " " → Forall clean l → l ≠ [] →
  ∀ pad, pad = "" ∨ pad = " " →
  entries (pad +:+ join (String "," pad') l) = l.
Proof.
  intros Hpad' Hl. induction Hl as [|x r Hx Hr IH]; intros Hne pad Hpad;
    [congruence|].
  destruct (padded_clean pad x Hpad Hx) as (Hs & Hn & Hc).
  destruct r as [|y r'].
  - cbn [join]. unfold entries. rewrite split_whole by exact Hc.
    cbn [List.filter]. rewrite Hn. cbn. now rewrite Hs.
  - change (join (String "," pad') (x :: y :: r'))
      with (x +:+ String "," pad' +:+ join (String "," pad') (y :: r')).
    rewrite <- append_assoc.
    change (String "," pad' +:+ ?t) with (String "," (pad' +:+ t)).
    unfold entries. rewrite split_piece by exact Hc.
    cbn [List.filter]. rewrite Hn. cbn [fmap list_fmap]. rewrite Hs. f_equal.
    apply (IH ltac:(discriminate) pad' Hpad').
Qed.

Lemma join_nonempty (sep x : string) (r : list string) :
  x ≠ "" → Str.nonempty (join sep (x :: r)) = true.
Proof.
  intros Hx. unfold Str.nonempty. apply negb_true_iff, String.eqb_neq.
  destruct x as [|a t]; [congruence|]. destruct r; discriminate.
Qed.

(** X13: names that are clean come back as they were: joined with commas,
    with or without a space after each comma, [to_list] returns exactly
    the names, in order. *)
Theorem to_list_of_joined (l : list string) :
  Forall clean l →
  to_list (join ", " l) = l ∧ to_list (join "," l) = l.
Proof.
  intros Hl. destruct l as [|x r]; [split; reflexivity|].
  assert (Hx : x ≠ "") by (now apply Forall_cons in Hl as [(? & _) _]).
  unfold to_list. rewrite !join_nonempty by exact Hx.
  split.
  - apply (entries_joined " " (x :: r) (or_intror eq_refl) Hl
             ltac:(discriminate) "" (or_introl eq_refl)).
  - apply (entries_joined "" (x :: r) (or_introl eq_refl) Hl
             ltac:(discriminate) "" (or_introl eq_refl)).
Qed.

Lemma to_list_of_joined_witness :
  Forall clean ["drama"; "film noir"]
  ∧ to_list "drama, film noir" = ["drama"; "film noir"]
  ∧ to_list "drama,film noir" = ["drama"; "film noir"].
Proof.
  assert (H : Forall clean ["drama"; "film noir"]).
  { repeat constructor; discriminate. }
  split; [exact H|]. exact (to_list_of_joined ["drama"; "film noir"] H).
Defined.

(** ** Reading numbers back *)

Lemma sub_cls_app (cl : Re.cls) (s t : string) :
  Re.sub_cls cl (s +:+ t) = Re.sub_cls cl s +:+ Re.sub_cls cl t.
Proof.
  induction s as [|a s IH]; [reflexivity|].
  cbn [String.append Re.sub_cls].
  destruct (Re.cls_test cl a); cbn [String.append]; now rewrite IH.
Qed.

Lemma decimal_app (a b : list ascii) :
  Spec.decimal (a ++ b)
  = Spec.decimal a * 10 ^ Z.of_nat (length b) + Spec.decimal b.
Proof.
  induction a as [|d a IH]; [cbn; lia|].
  cbn [app Spec.decimal]. rewrite IH, length_app, Nat2Z.inj_add.
  rewrite Z.pow_add_r by lia. ring.
Qed.

Lemma chars_app (s t : string) :
  list_ascii_of_string (s +:+ t)
  = list_ascii_of_string s ++ list_ascii_of_string t.
Proof. induction s as [|a s IH]; [reflexivity|]. cbn. now rewrite IH. Qed.

Lemma chars_length (s : string) :
  length (list_ascii_of_string s) = String.length s.
Proof. induction s as [|a s IH]; [reflexivity|]. cbn. now rewrite IH. Qed.

Lemma int_digits_app (s t : string) :
  int_digits (s +:+ t)
  = int_digits s * 10 ^ Z.of_nat (String.length t) + int_digits t.
Proof.
  rewrite !int_digits_decimal. unfold Spec.count_value.
  now rewrite chars_app, decimal_app, chars_length.
Qed.

(** X14: [_to_int_safe] glues the digits on both sides of whatever stands
    between them: for two runs of digits around text without digits, such
    as a decimal point or a thousands separator, the result is the number
    written by the two runs put together, so "8.6" reads as 86; and text
    without digits does not change the result wherever it stands.  The
    runs together are no longer than [int] accepts. *)
Theorem to_int_safe_glues_digits (d1 junk d2 : string) :
  Re.sub_cls Re.NotDigit d1 = d1 → Re.sub_cls Re.NotDigit d2 = d2 →
  Re.sub_cls Re.NotDigit junk = "" → d1 ≠ "" → convertible (d1 +:+ d2) →
  _to_int_safe (VStr (d1 +:+ junk +:+ d2))
    = Some (int_digits d1 * 10 ^ Z.of_nat (String.length d2) + int_digits d2)
  ∧ ∀ s1 s2, _to_int_safe (VStr (s1 +:+ junk +:+ s2))
             = _to_int_safe (VStr (s1 +:+ s2)).
Proof.
  intros H1 H2 Hj Hne _. unfold _to_int_safe. cbn [py_str]. cbv zeta.
  rewrite !sub_cls_app, Hj, H1, H2. cbn [String.append]. split.
  - destruct d1 as [|a t]; [congruence|]. cbn [String.append String.eqb negb].
    change (String a (t +:+ d2)) with (String a t +:+ d2).
    now rewrite int_digits_app.
  - intros s1 s2. now rewrite !sub_cls_app, Hj.
Qed.

Lemma to_int_safe_glues_digits_witness :
  _to_int_safe (VStr "2100.50") = Some 210050.
Proof.
  exact (proj1 (to_int_safe_glues_digits "2100" "." "50"
                  eq_refl eq_refl eq_refl ltac:(discriminate)
                  ltac:(apply Nat.leb_le; vm_compute; reflexivity))).
Defined.

Lemma int_digits_from_uint (d a : Decimal.uint) :
  int_digits_from (Z.of_N (DecimalPos.Unsigned.of_lu a)) (NilEmpty.string_of_uint d)
  = Z.of_N (DecimalPos.Unsigned.of_lu (Decimal.revapp d a)).
Proof.
  revert a. induction d as [|d IH|d IH|d IH|d IH|d IH|d IH|d IH|d IH|d IH|d IH];
    intros a; [reflexivity|..];
    cbn [NilEmpty.string_of_uint int_digits_from Decimal.revapp];
    rewrite <- IH; f_equal;
    rewrite (DecimalPos.Unsigned.of_lu_eqn (_ a)); cbn [DecimalPos.Unsigned.hd DecimalPos.Unsigned.tl];
    unfold digit_val; generalize (DecimalPos.Unsigned.of_lu a); intros n;
    match goal with
    | |- context [Re.code ?c] =>
        let v := eval vm_compute in (Re.code c) in change (Re.code c) with v
    end; lia.
Qed.

Lemma string_of_uint_digits (d : Decimal.uint) :
  Re.sub_cls Re.NotDigit (NilEmpty.string_of_uint d) = NilEmpty.string_of_uint d.
Proof.
  induction d; cbn [NilEmpty.string_of_uint Re.sub_cls]; [reflexivity|..];
    match goal with
    | |- context [Re.cls_test ?c ?a] =>
        let v := eval vm_compute in (Re.cls_test c a) in
        change (Re.cls_test c a) with v
    end; cbn match; congruence.
Qed.

Lemma int_digits_pos (p : positive) :
  let s := NilEmpty.string_of_uint (Pos.to_uint p) in
  Re.sub_cls Re.NotDigit s = s ∧ s ≠ "" ∧ int_digits s = Z.pos p
  ∧ NilZero.string_of_uint (Pos.to_uint p) = s.
Proof.
  cbv zeta. split; [apply string_of_uint_digits|].
  assert (Hnil : Pos.to_uint p ≠ Decimal.Nil).
  { intros H. pose proof (DecimalPos.Unsigned.of_to p) as Hp.
    rewrite H in Hp. discriminate. }
  repeat split.
  - destruct (Pos.to_uint p); [congruence|discriminate..].
  - unfold int_digits.
    change 0 with (Z.of_N (DecimalPos.Unsigned.of_lu Decimal.Nil)).
    rewrite int_digits_from_uint.
    change (Decimal.revapp (Pos.to_uint p) Decimal.Nil)
      with (Decimal.rev (Pos.to_uint p)).
    rewrite <- DecimalPos.Unsigned.of_uint_alt, DecimalPos.Unsigned.of_to.
    reflexivity.
  - destruct (Pos.to_uint p); [congruence|reflexivity..].
Qed.

(** X15: [_to_int_safe] of an integer that [str] can write is its
    absolute value: the sign that [str] writes is not a digit and is
    dropped with everything else, so a number that is already an [int]
    comes back unchanged when it is not negative, and negated when it
    is. *)
Theorem to_int_safe_of_int (n : Z) :
  convertible (str_of_int (Z.abs n)) →
  _to_int_safe (VInt n) = Some (Z.abs n).
Proof.
  intros _.
  unfold _to_int_safe. cbn [py_str py_repr]. cbv zeta. unfold str_of_int.
  destruct n as [|p|p]; [reflexivity|..];
    destruct (int_digits_pos p) as (Hd & Hne & Hv & Hz);
    cbn [Z.to_int NilZero.string_of_int Z.abs].
  - rewrite Hz, Hd, Hv.
    destruct (NilEmpty.string_of_uint (Pos.to_uint p)); [congruence|reflexivity].
  - rewrite Hz. cbn [Re.sub_cls]. 
    change (Re.cls_test Re.NotDigit "-") with true. cbn match.
    rewrite Hd, Hv.
    destruct (NilEmpty.string_of_uint (Pos.to_uint p)); [congruence|reflexivity].
Qed.

Lemma to_int_safe_of_int_witness :
  _to_int_safe (VInt (-2100000)) = Some 2100000.
Proof.
  exact (to_int_safe_of_int (-2100000)
           ltac:(apply Nat.leb_le; vm_compute; reflexivity)).
Defined.

(** ** What a match holds *)

Lemma greedy_head (cl : Re.cls) (k : string → option (list string))
    (s acc : string) (r : list string) :
  Re.greedy cl k acc s = Some r →
  ∃ taken tl, r = (acc +:+ taken) :: tl ∧ all_in cl taken = true.
Proof.
  revert acc r. induction s as [|a t IH]; intros acc r.
  - cbn [Re.greedy]. destruct (k "") as [tl|]; [|discriminate].
    intros [= <-]. exists "", tl. now rewrite append_nil_r.
  - cbn [Re.greedy].
    assert (Hstop : cons acc <$> k (String a t) = Some r →
                    ∃ taken tl, r = (acc +:+ taken) :: tl
                                ∧ all_in cl taken = true).
    { destruct (k (String a t)) as [tl|]; [|discriminate].
      intros [= <-]. exists "", tl. now rewrite append_nil_r. }
    destruct (Re.cls_test cl a) eqn:Ha; [|exact Hstop].
    destruct (Re.greedy cl k (acc +:+ String a "") t) as [r'|] eqn:Hg;
      [|exact Hstop].
    intros [= <-]. destruct (IH _ _ Hg) as (taken & tl & -> & Hall).
    exists (String a taken), tl. rewrite append_snoc. split; [reflexivity|].
    cbn [all_in]. now rewrite Ha.
Qed.

Lemma exactly_head (cl : Re.cls) (k : string → option (list string))
    (n : nat) (s acc : string) (r : list string) :
  Re.exactly cl n k acc s = Some r →
  ∃ taken tl, r = (acc +:+ taken) :: tl ∧ all_in cl taken = true
              ∧ String.length taken = n.
Proof.
  revert s acc r. induction n as [|n IH]; intros s acc r.
  - cbn [Re.exactly]. destruct (k s) as [tl|]; [|discriminate].
    intros [= <-]. exists "", tl. now rewrite append_nil_r.
  - cbn [Re.exactly]. destruct s as [|a t]; [discriminate|].
    destruct (Re.cls_test cl a) eqn:Ha; [|discriminate].
    intros Hg. destruct (IH _ _ _ Hg) as (taken & tl & -> & Hall & Hlen).
    exists (String a taken), tl. rewrite append_snoc. split; [reflexivity|].
    cbn [all_in String.length]. now rewrite Ha, Hlen.
Qed.

Lemma search_some (p : Re.pattern) (s : string) (r : list string) :
  Re.search p s = Some r → ∃ s', Re.match_at p s' = Some r.
Proof.
  induction s as [|a t IH]; rewrite search_unfold.
  - destruct (Re.match_at p "") eqn:Hm; [|discriminate].
    intros [= <-]. eauto.
  - destruct (Re.match_at p (String a t)) eqn:Hm; [intros [= <-]; eauto|].
    exact IH.
Qed.

(** The group of a pattern that starts with [(\d+)] is a run of digits. *)
Lemma plus_digit_group (p : Re.pattern) (s : string) (r : list string) :
  Re.search (Re.Plus Re.Digit :: p) s = Some r →
  all_in Re.Digit (Re.group1 r) = true.
Proof.
  intros (s' & Hm)%search_some. destruct s' as [|a t]; [discriminate|].
  rewrite match_plus in Hm.
  destruct (Re.cls_test Re.Digit a) eqn:Ha; [|discriminate].
  destruct (greedy_head _ _ _ _ _ Hm) as (taken & tl & -> & Hall).
  cbn [Re.group1 hd String.append all_in]. now rewrite Ha.
Qed.

Lemma all_digits_chars (s : string) :
  all_in Re.Digit s = true →
  Forall (fun a => Re.is_digit a = true) (list_ascii_of_string s).
Proof.
  induction s as [|a t IH]; cbn [all_in list_ascii_of_string Re.cls_test];
    [constructor|].
  intros [Ha Ht]%andb_prop. constructor; auto.
Qed.

Lemma decimal_bound (ds : list ascii) :
  Forall (fun a => Re.is_digit a = true) ds →
  0 <= Spec.decimal ds < 10 ^ Z.of_nat (length ds).
Proof.
  induction 1 as [|a ds Ha _ IH]; cbn [Spec.decimal length]; [lia|].
  apply is_digit_val in Ha.
  rewrite Nat2Z.inj_succ, Z.pow_succ_r by lia. nia.
Qed.

Lemma int_digits_bound (s : string) :
  all_in Re.Digit s = true →
  0 <= int_digits s < 10 ^ Z.of_nat (String.length s).
Proof.
  intros H%all_digits_chars%decimal_bound.
  now rewrite int_digits_decimal, <- chars_length.
Qed.

Lemma group_int_nonneg (p : Re.pattern) (s : string) :
  0 <= group_int (Re.search (Re.Plus Re.Digit :: p) s) 0.
Proof.
  unfold group_int.
  destruct (Re.search (Re.Plus Re.Digit :: p) s) as [g|] eqn:Hs; [|lia].
  apply plus_digit_group, int_digits_bound in Hs. lia.
Qed.

Lemma duration_positive (v : value) (n : Z) :
  _iso8601_duration_to_minutes v = Ok (Some n) → 0 < n.
Proof.
  unfold _iso8601_duration_to_minutes.
  destruct (negb (truthy v)); [discriminate|].
  destruct v; try discriminate. cbv zeta.
  destruct (0 <? _) eqn:Hpos; [|discriminate].
  intros [= <-]. lia.
Qed.

Lemma fallback_positive (t : option string) (n : Z) :
  fallback_runtime t = Some n → 0 < n.
Proof.
  unfold fallback_runtime. destruct t as [txt|]; [|discriminate]. cbv zeta.
  pose proof (group_int_nonneg [Re.Star Re.Space; Re.One (Re.Lit "h")] txt) as Hh.
  pose proof (group_int_nonneg [Re.Star Re.Space; Re.One (Re.Lit "m")] txt) as Hm.
  unfold group_int, count_before_sp in *.
  destruct (Re.search _ txt); destruct (Re.search _ txt);
    destruct (_ =? 0) eqn:Hz; try discriminate; intros [= <-]; lia.
Qed.

Lemma year_in_range (o : list (string * value)) (y : Z) :
  year_of o = Some y → 0 <= y <= 9999.
Proof.
  unfold year_of. destruct (truthy _); [|discriminate].
  unfold Re.rmatch.
  destruct (Re.match_at _ _) as [m|] eqn:Hm; [|discriminate].
  intros [= <-]. cbn [Re.match_at] in Hm.
  destruct (exactly_head _ _ _ _ _ _ Hm) as (taken & tl & -> & Hall & Hlen).
  cbn [Re.group1 hd String.append].
  pose proof (int_digits_bound taken Hall) as Hb. rewrite Hlen in Hb.
  change (10 ^ Z.of_nat 4) with 10000 in Hb. lia.
Qed.

Lemma to_int_safe_nonneg (v : value) (n : Z) :
  _to_int_safe v = Some n → 0 <= n.
Proof.
  rewrite to_int_safe_refines. unfold Spec.parseIntLenient.
  pose proof (digit_chars_digits (py_str v)) as Hd.
  destruct v; try discriminate;
    (destruct (Spec.digit_chars _) as [|a0 l0]; [discriminate|]);
    intros [= <-]; exact (decimal_nonneg (a0 :: l0) Hd).
Qed.

Lemma extract_ok (o : list (string * value)) (y : option Z)
    (rv : option spec_float) (rc rt : option Z) :
  extract o = Ok (y, rv, rc, rt) →
  y = year_of o ∧ (∃ v, rc = _to_int_safe v)
  ∧ _iso8601_duration_to_minutes (dict_get o "duration") = Ok rt.
Proof.
  unfold extract. cbv zeta.
  destruct (agg_get _ "ratingValue") as [v1|]; [|discriminate].
  destruct (agg_get _ "ratingCount") as [v2|]; [|discriminate].
  cbn [rbind].
  destruct (match v1 with VNone => Ok None | _ => _ end) as [f|];
    [|discriminate].
  cbn [rbind].
  destruct (_iso8601_duration_to_minutes _) as [d|]; [|discriminate].
  cbn [rbind]. intros [= <- <- <- <-]. eauto.
Qed.

(** X16: whatever page it is given, a record that [fetch_min_from_imdb]
    returns carries the URL it was asked for, a year between 0 and 9999,
    a vote count that is not negative and a runtime that is positive,
    where these fields are not null. *)
Theorem fetch_fields_in_range (url : string) (r : response) (s : scraped) :
  fetch_min_from_imdb url r = Ok s →
  URL s = url
  ∧ (∀ y, Year s = Some y → 0 <= y <= 9999)
  ∧ (∀ v, Number_of_Votes s = Some v → 0 <= v)
  ∧ (∀ m, Runtime s = Some m → 0 < m).
Proof.
  unfold fetch_min_from_imdb. destruct r as [e|soup]; [discriminate|].
  cbv zeta.
  assert (Hnone : ∀ m, fallback_runtime (techspec_runtime soup) = Some m → 0 < m)
    by (intros m; apply fallback_positive).
  assert (Hempty :
    rbind (Ok (None, None, None, None))
      (fun '(year, rating_value, rating_count, runtime_min) =>
         Ok {| URL := url; Year := year; IMDb_rating := rating_value;
               Number_of_Votes := rating_count;
               Runtime := match runtime_min with
                          | None => fallback_runtime (techspec_runtime soup)
                          | Some _ => runtime_min
                          end |}) = Ok s →
    URL s = url
    ∧ (∀ y, Year s = Some y → 0 <= y <= 9999)
    ∧ (∀ v, Number_of_Votes s = Some v → 0 <= v)
    ∧ (∀ m, Runtime s = Some m → 0 < m)).
  { cbn [rbind]. intros [= <-]. cbn.
    split; [reflexivity|]. split; [discriminate|]. split; [discriminate|].
    exact Hnone. }
  destruct (scan_tags None (ld_json soup)) as [ld|]; [|exact Hempty].
  destruct ld as [| | | | | |o];
    try (destruct (truthy _); [discriminate | exact Hempty]).
  destruct (truthy (VDict o)); [|exact Hempty].
  destruct (extract o) as [[[[y rv] rc] rt]|] eqn:Hex; [|discriminate].
  cbn [rbind]. intros [= <-]. cbn.
  destruct (extract_ok _ _ _ _ _ Hex) as (-> & (v & ->) & Hrt).
  split; [reflexivity|]. split; [|split].
  - intros y Hy. now apply (year_in_range o).
  - intros n Hn. now apply (to_int_safe_nonneg v).
  - intros m Hm. destruct rt as [n|]; [|now apply Hnone].
    injection Hm as ->. now apply (duration_positive _ _ Hrt).
Qed.

Lemma fetch_fields_in_range_witness :
  fetch_min_from_imdb "u"
    (Body {| ld_json :=
               [Loads (VDict [("@type", VStr "Movie");
                              ("datePublished", VStr "2014-11-07");
                              ("aggregateRating",
                               VDict [("ratingCount", VInt (-12))])])];
             techspec_runtime := Some "2h 49m" |})
  = Ok {| URL := "u"; Year := Some 2014; IMDb_rating := None;
          Number_of_Votes := Some 12; Runtime := Some 169 |}
  ∧ 0 <= 2014 <= 9999 ∧ 0 <= 12 ∧ 0 < 169.
Proof.
  split; [reflexivity|].
  destruct (fetch_fields_in_range "u"
              (Body {| ld_json :=
                         [Loads (VDict [("@type", VStr "Movie");
                                        ("datePublished", VStr "2014-11-07");
                                        ("aggregateRating",
                                         VDict [("ratingCount", VInt (-12))])])];
                       techspec_runtime := Some "2h 49m" |})
              {| URL := "u"; Year := Some 2014; IMDb_rating := None;
                 Number_of_Votes := Some 12; Runtime := Some 169 |}
              eq_refl) as (_ & Hy & Hv & Hm).
  exact (conj (Hy 2014 eq_refl) (conj (Hv 12 eq_refl) (Hm 169 eq_refl))).
Defined.

(** ** Durations with more than one count *)

Lemma all_in_digits (s : string) : all_in Re.Digit s = Spec.digits_only s.
Proof. induction s as [|a t IH]; cbn; [reflexivity | now rewrite IH]. Qed.

(** X17: [_iso8601_duration_to_minutes] reads the leftmost hour count and
    the leftmost minute count and nothing else: whatever follows the first
    minute count, and any further hour count between the two, has no part
    in the result, so "PT1H2H30M45M" gives 90.  Both counts are no longer
    than [int] accepts. *)
Theorem duration_leftmost_counts_win (pre hd mid md rest : string) :
  Spec.no_count pre = true → Spec.ends_in_digit pre = false →
  all_in Re.Digit hd = true → hd ≠ "" → convertible hd →
  Spec.digit_then "M" mid = false → Spec.ends_in_digit mid = false →
  all_in Re.Digit md = true → md ≠ "" → convertible md →
  _iso8601_duration_to_minutes
    (VStr (pre +:+ hd +:+ "H" +:+ mid +:+ md +:+ "M" +:+ rest))
  = Ok (let total := int_digits hd * 60 + int_digits md in
        if 0 <? total then Some total else None).
Proof.
  rewrite !all_in_digits.
  intros Hpre Hend Hhd Hhne _ Hmid Hmend Hmd Hmne _.
  destruct (no_count_split _ Hpre) as [HpH HpM].
  unfold _iso8601_duration_to_minutes. cbn [truthy]. rewrite negb_involutive.
  destruct (String.eqb_spec
              (pre +:+ hd +:+ "H" +:+ mid +:+ md +:+ "M" +:+ rest) "")
    as [Hs|_].
  { destruct pre; [|discriminate]. destruct hd; [congruence|discriminate]. }
  cbv zeta. cbn [String.append].
  assert (Hh : Re.search (count_before "H")
                 (pre +:+ hd +:+ String "H" (mid +:+ md +:+ String "M" rest))
               = Some [hd; "H"]).
  { rewrite search_prefix by side. now rewrite search_run by side. }
  assert (Hm : Re.search (count_before "M")
                 (pre +:+ hd +:+ String "H" (mid +:+ md +:+ String "M" rest))
               = Some [md; "M"]).
  { rewrite search_prefix by side. rewrite search_run by side.
    change (Ascii.eqb "H" "M") with false. cbv iota.
    rewrite search_skip by reflexivity.
    rewrite search_prefix by side. now rewrite search_run by side. }
  rewrite Hh, Hm. reflexivity.
Qed.

Lemma duration_leftmost_counts_win_witness :
  _iso8601_duration_to_minutes (VStr "PT1H2H30M45M") = Ok (Some 90).
Proof.
  exact (duration_leftmost_counts_win "PT" "1" "2H" "30" "45M"
           eq_refl eq_refl eq_refl ltac:(discriminate)
           ltac:(apply Nat.leb_le; vm_compute; reflexivity)
           eq_refl eq_refl eq_refl ltac:(discriminate)
           ltac:(apply Nat.leb_le; vm_compute; reflexivity)).
Defined.

(** ** The runtime on the page: the patterns [(\d+)\s*h] and [(\d+)\s*m] *)

Section GreedyRun.

Variable cl : Re.cls.
Variable k : string → option (list string).
Hypothesis k_cl : ∀ a t, Re.cls_test cl a = true → k (String a t) = None.

(** A repetition takes the whole run when the rest of the pattern cannot
    start inside it. *)
Lemma greedy_run (run rest acc : string) :
  all_in cl run = true → starts_in cl rest = false →
  Re.greedy cl k acc (run +:+ rest) = cons (acc +:+ run) <$> k rest.
Proof.
  intros Hrun Hrest. revert acc.
  induction run as [|a run IH]; intros acc.
  - rewrite append_nil_r. cbn [String.append].
    destruct rest as [|x r]; [reflexivity|].
    cbn [Re.greedy]. cbn [starts_in] in Hrest. now rewrite Hrest.
  - cbn [all_in] in Hrun. apply andb_prop in Hrun as [Ha Hrun].
    cbn [String.append Re.greedy]. rewrite Ha, (IH Hrun), append_snoc.
    destruct (k rest); [reflexivity|].
    now rewrite (k_cl a _ Ha).
Qed.

End GreedyRun.

Lemma digit_not_space (a : ascii) :
  Re.is_digit a = true → Re.is_space a = false.
Proof. unfold Re.is_digit, Re.is_space. cbv zeta. lia. Qed.

Lemma spaces_no_digit (s : string) :
  all_in Re.Space s = true → all_in Re.NotDigit s = true.
Proof.
  induction s as [|a t IH]; [reflexivity|].
  cbn [all_in Re.cls_test]. intros [Ha Ht]%andb_prop.
  rewrite (IH Ht), andb_true_r.
  destruct (Re.is_digit a) eqn:Hd; [|reflexivity].
  apply digit_not_space in Hd. congruence.
Qed.

Lemma all_in_app (cl : Re.cls) (s t : string) :
  all_in cl (s +:+ t) = all_in cl s && all_in cl t.
Proof.
  induction s as [|a s IH]; [reflexivity|].
  cbn [String.append all_in]. now rewrite IH, andb_assoc.
Qed.

Section SpacedCount.

Variable c : ascii.
Hypothesis c_not_digit : Re.is_digit c = false.
Hypothesis c_not_space : Re.is_space c = false.

Lemma spaced_at_digit (a : ascii) (t : string) :
  Re.cls_test Re.Digit a = true →
  Re.match_at [Re.Star Re.Space; Re.One (Re.Lit c)] (String a t) = None.
Proof.
  intros Ha. cbn [Re.cls_test] in Ha.
  change (Re.match_at [Re.Star Re.Space; Re.One (Re.Lit c)] (String a t))
    with (Re.greedy Re.Space (Re.match_at [Re.One (Re.Lit c)]) "" (String a t)).
  cbn [Re.greedy Re.cls_test]. rewrite (digit_not_space a Ha).
  now rewrite lit_at_digit.
Qed.

Lemma lit_at_space (a : ascii) (t : string) :
  Re.cls_test Re.Space a = true →
  Re.match_at [Re.One (Re.Lit c)] (String a t) = None.
Proof.
  cbn [Re.cls_test]. intros Ha. rewrite lit_at.
  destruct (Ascii.eqb_spec a c) as [->|]; [congruence | reflexivity].
Qed.

(** At a run of digits followed by white space and then [x]. *)
Lemma spaced_match (ds sp : string) (x : ascii) (r : string) :
  all_in Re.Digit ds = true → ds ≠ "" → all_in Re.Space sp = true →
  Re.is_digit x = false → Re.is_space x = false →
  Re.match_at (count_before_sp c) (ds +:+ sp +:+ String x r) =
  if Ascii.eqb x c then Some [ds; sp; String x ""] else None.
Proof.
  intros Hds Hne Hsp Hxd Hxs. destruct ds as [|d ds]; [congruence|].
  cbn [all_in] in Hds. apply andb_prop in Hds as [Hd Hds].
  unfold count_before_sp. cbn [String.append]. rewrite match_plus, Hd.
  assert (Hstart : starts_in Re.Digit (sp +:+ String x r) = false).
  { destruct sp as [|s sp']; [exact Hxd|].
    cbn [all_in Re.cls_test] in Hsp. apply andb_prop in Hsp as [Hs _].
    cbn [String.append starts_in Re.cls_test].
    destruct (Re.is_digit s) eqn:E; [|reflexivity].
    apply digit_not_space in E. congruence. }
  rewrite (greedy_run Re.Digit _ spaced_at_digit) by assumption.
  change (Re.match_at [Re.Star Re.Space; Re.One (Re.Lit c)] (sp +:+ String x r))
    with (Re.greedy Re.Space (Re.match_at [Re.One (Re.Lit c)]) "" (sp +:+ String x r)).
  rewrite (greedy_run Re.Space _ lit_at_space) by (assumption || exact Hxs).
  rewrite lit_at. cbn [String.append].
  now destruct (Ascii.eqb x c).
Qed.

(** Text without digits is passed over. *)
Lemma spaced_search_skip (pre rest : string) :
  all_in Re.NotDigit pre = true →
  Re.search (count_before_sp c) (pre +:+ rest)
  = Re.search (count_before_sp c) rest.
Proof.
  induction pre as [|a t IH]; [reflexivity|].
  cbn [all_in Re.cls_test]. intros [Ha Ht]%andb_prop.
  cbn [String.append]. rewrite search_unfold.
  unfold count_before_sp at 1. rewrite match_plus. cbn [Re.cls_test].
  apply negb_true_iff in Ha. rewrite Ha. now apply IH.
Qed.

Lemma spaced_search_none (s : string) :
  all_in Re.NotDigit s = true → Re.search (count_before_sp c) s = None.
Proof.
  intros Hs. rewrite <- (append_nil_r s), spaced_search_skip by assumption.
  reflexivity.
Qed.

(** The count is found at the start of the run when [x] is the marker, and
    nowhere in the run and the white space when it is not. *)
Lemma spaced_search_run (ds sp : string) (x : ascii) (r : string) :
  all_in Re.Digit ds = true → ds ≠ "" → all_in Re.Space sp = true →
  Re.is_digit x = false → Re.is_space x = false →
  Re.search (count_before_sp c) (ds +:+ sp +:+ String x r) =
  if Ascii.eqb x c then Some [ds; sp; String x ""]
  else Re.search (count_before_sp c) (String x r).
Proof.
  intros Hds Hne Hsp Hxd Hxs. induction ds as [|d ds IH]; [congruence|].
  rewrite search_unfold, spaced_match by assumption.
  destruct (Ascii.eqb x c) eqn:Hxc; [reflexivity|].
  cbn [String.append]. cbn [all_in] in Hds. apply andb_prop in Hds as [_ Hds].
  destruct ds as [|d' ds'].
  - cbn [String.append]. apply spaced_search_skip. now apply spaces_no_digit.
  - apply IH; [assumption | discriminate].
Qed.

End SpacedCount.

(** X18: the runtime read off the page text.  In text that shows a run of
    digits, optional white space and [h], then text without digits, a
    second run of digits, optional white space and [m], the result is the
    first count times 60 plus the second, whatever follows; with only the
    hour part, or only the minute part, in text without other digits it is
    that part alone; a total of zero, and text without digits, give null.
    So "2h 49m" and "2 hours 49 minutes" both give 169.  Both counts are
    no longer than [int] accepts. *)
Theorem fallback_runtime_reads_counts (pre hd sp1 mid md sp2 : string) :
  all_in Re.NotDigit pre = true →
  all_in Re.Digit hd = true → hd ≠ "" → convertible hd →
  all_in Re.Space sp1 = true →
  all_in Re.NotDigit mid = true →
  all_in Re.Digit md = true → md ≠ "" → convertible md →
  all_in Re.Space sp2 = true →
  (∀ rest,
     fallback_runtime
       (Some (pre +:+ hd +:+ sp1 +:+ "h" +:+ mid +:+ md +:+ sp2 +:+ "m" +:+ rest))
     = minutes_or_none (int_digits hd * 60 + int_digits md))
  ∧ fallback_runtime (Some (pre +:+ hd +:+ sp1 +:+ "h" +:+ mid))
    = minutes_or_none (int_digits hd * 60)
  ∧ fallback_runtime (Some (pre +:+ md +:+ sp2 +:+ "m" +:+ mid))
    = minutes_or_none (int_digits md)
  ∧ fallback_runtime (Some pre) = None
  ∧ fallback_runtime None = None.
Proof.
  intros Hpre Hhd Hhne _ Hsp1 Hmid Hmd Hmne _ Hsp2.
  assert (Hhmid : all_in Re.NotDigit (String "h" mid) = true)
    by (cbn [all_in]; now rewrite Hmid).
  assert (Hmmid : all_in Re.NotDigit (String "m" mid) = true)
    by (cbn [all_in]; now rewrite Hmid).
  unfold fallback_runtime, minutes_or_none. cbv zeta. cbn [String.append].
  split; [intros rest|split; [|split; [|split; [|reflexivity]]]].
  - rewrite (spaced_search_skip "h" pre),
      (spaced_search_skip "m" pre) by side.
    rewrite (spaced_search_run "h") by side.
    rewrite (spaced_search_run "m") by side.
    change (Ascii.eqb "h" "h") with true. change (Ascii.eqb "h" "m") with false.
    cbv iota.
    change (String "h" (mid +:+ md +:+ sp2 +:+ String "m" rest))
      with (String "h" mid +:+ md +:+ sp2 +:+ String "m" rest).
    rewrite (spaced_search_skip "m" (String "h" mid)) by side.
    rewrite (spaced_search_run "m") by side.
    reflexivity.
  - rewrite (spaced_search_skip "h" pre),
      (spaced_search_skip "m" pre) by side.
    rewrite (spaced_search_run "h") by side.
    rewrite (spaced_search_run "m") by side.
    change (Ascii.eqb "h" "h") with true. change (Ascii.eqb "h" "m") with false.
    cbv iota. rewrite spaced_search_none by side.
    cbn [group_int Re.group1 List.hd]. now rewrite Z.add_0_r.
  - rewrite (spaced_search_skip "h" pre),
      (spaced_search_skip "m" pre) by side.
    rewrite (spaced_search_run "h") by side.
    rewrite (spaced_search_run "m") by side.
    change (Ascii.eqb "m" "m") with true. change (Ascii.eqb "m" "h") with false.
    cbv iota. rewrite spaced_search_none by side.
    reflexivity.
  - rewrite !spaced_search_none by side. reflexivity.
Qed.

Lemma fallback_runtime_reads_counts_witness :
  fallback_runtime (Some "Runtime 2 hours 49 minutes (169 min)") = Some 169.
Proof.
  exact (proj1 (fallback_runtime_reads_counts "Runtime " "2" " " "ours " "49" " "
                  eq_refl eq_refl ltac:(discriminate)
                  ltac:(apply Nat.leb_le; vm_compute; reflexivity)
                  eq_refl eq_refl eq_refl ltac:(discriminate)
                  ltac:(apply Nat.leb_le; vm_compute; reflexivity)
                  eq_refl)
           "inutes (169 min)").
Defined.

(** ** The fetch button *)

Lemma fetch_url (u : string) (r : response) (s : scraped) :
  fetch_min_from_imdb u r = Ok s → URL s = u.
Proof.
  unfold fetch_min_from_imdb. destruct r as [e|soup]; [discriminate|].
  cbv zeta.
  destruct (match scan_tags None (ld_json soup) with
            | Some (VDict _) => _
            | Some _ => _
            | None => _
            end) as [[[[y rv] rc] rt]|]; [|discriminate].
  cbn [rbind]. now intros [= <-].
Qed.

Lemma fetched_fields_none (f : form) :
  fetched f = None →
  fetched_fields (doc_out f) = [Some BNull; Some BNull; Some BNull; Some BNull].
Proof. unfold fetched_fields, doc_out. intros ->. reflexivity. Qed.

Lemma fetched_fields_some (f : form) (s : scraped) :
  fetched f = Some s →
  fetched_fields (doc_out f)
  = [Some (opt_bson BInt (Year s)); Some (opt_bson BDouble (IMDb_rating s));
     Some (opt_bson BInt (Number_of_Votes s)); Some (opt_bson BInt (Runtime s))].
Proof. unfold fetched_fields, doc_out. intros ->. reflexivity. Qed.

(** X19: the fetch button never raises and never touches a collection.
    Without a click, or with an empty URL, the form keeps the record the
    session held.  With a click and a URL, a fetch that returns replaces it
    by the new record, which carries the stripped URL; a fetch that raises
    is reported as "Fetch failed" and the record held before is dropped, so
    that a document saved afterwards has null for all four fetched fields,
    whatever had been fetched earlier. *)
Theorem fetch_button_replaces_or_drops (clicked : bool) (u : string)
    (r : response) (old : option scraped) (w : world) :
  (∃ x w', fetch_button clicked u r old w = (Ok (x, x), w')
           ∧ population w' = population w ∧ data_set w' = data_set w)
  ∧ (clicked && Str.nonempty u = false →
     fetch_button clicked u r old w = (Ok (old, old), w))
  ∧ (clicked && Str.nonempty u = true →
     match fetch_min_from_imdb (Str.strip u) r with
     | Ok s =>
         fetch_button clicked u r old w = (Ok (Some s, Some s), w)
         ∧ URL s = Str.strip u
         ∧ ∀ f, fetched f = Some s →
             fetched_fields (doc_out f)
             = [Some (opt_bson BInt (Year s));
                Some (opt_bson BDouble (IMDb_rating s));
                Some (opt_bson BInt (Number_of_Votes s));
                Some (opt_bson BInt (Runtime s))]
     | Raise e =>
         fetch_button clicked u r old w
         = (Ok (None, None), report "Fetch failed" e w)
         ∧ ∀ f, fetched f = None →
             fetched_fields (doc_out f)
             = [Some BNull; Some BNull; Some BNull; Some BNull]
     end).
Proof.
  unfold fetch_button. cbv zeta.
  destruct (clicked && Str.nonempty u) eqn:Hc.
  - unfold_monad.
    destruct (fetch_min_from_imdb (Str.strip u) r) as [s|e] eqn:Hf.
    + split; [eauto 6|]. split; [discriminate|]. intros _.
      split; [reflexivity|]. split; [now apply (fetch_url _ r)|].
      intros f. apply fetched_fields_some.
    + cbn. split; [eexists _, _; split; [reflexivity|]; split; reflexivity|].
      split; [discriminate|]. intros _. split; [reflexivity|].
      intros f. apply fetched_fields_none.
  - split; [exists old, w; repeat split|]. split; [reflexivity | discriminate].
Qed.

(** ** The lazy connection *)






















(** ** The year *)

Lemma exactly_run (cl : Re.cls) (k : string → option (list string))
    (run rest acc : string) :
  all_in cl run = true →
  Re.exactly cl (String.length run) k acc (run +:+ rest)
  = cons (acc +:+ run) <$> k rest.
Proof.
  revert acc. induction run as [|a run IH]; intros acc Hrun.
  - cbn [String.length Re.exactly String.append]. now rewrite append_nil_r.
  - cbn [all_in] in Hrun. apply andb_prop in Hrun as [Ha Hrun].
    cbn [String.length Re.exactly String.append].
    now rewrite Ha, (IH _ Hrun), append_snoc.
Qed.

Lemma exactly_other (cl : Re.cls) (k : string → option (list string))
    (run rest acc : string) :
  all_in cl run = false →
  Re.exactly cl (String.length run) k acc (run +:+ rest) = None.
Proof.
  revert acc. induction run as [|a run IH]; intros acc Hrun; [discriminate|].
  cbn [all_in] in Hrun. cbn [String.length Re.exactly String.append].
  destruct (Re.cls_test cl a); [|reflexivity].
  apply IH. exact Hrun.
Qed.

Lemma exactly_short (cl : Re.cls) (k : string → option (list string))
    (n : nat) (s acc : string) :
  (String.length s < n)%nat → Re.exactly cl n k acc s = None.
Proof.
  revert s acc. induction n as [|n IH]; intros s acc Hlen; [lia|].
  cbn [Re.exactly]. destruct s as [|a t]; [reflexivity|].
  destruct (Re.cls_test cl a); [|reflexivity].
  apply IH. cbn [String.length] in Hlen. lia.
Qed.

(** X21: the year is read off the first four characters of the release
    date's text and nothing else: when they are digits the year is the
    number they write, whatever follows, and when one of them is not, or
    the text is shorter than four characters, the year is null even if a
    year stands later in the text. *)
Theorem year_of_reads_first_four (o : list (string * value)) (d4 rest : string) :
  truthy (dict_get o "datePublished") = true →
  (py_str (dict_get o "datePublished") = d4 +:+ rest →
   String.length d4 = 4%nat →
   year_of o = if all_in Re.Digit d4 then Some (int_digits d4) else None)
  ∧ ((String.length (py_str (dict_get o "datePublished")) < 4)%nat →
     year_of o = None).
Proof.
  intros Ht. unfold year_of, Re.rmatch. rewrite Ht. cbn [Re.match_at]. split.
  - intros -> Hlen. rewrite <- Hlen.
    destruct (all_in Re.Digit d4) eqn:Hd.
    + now rewrite exactly_run by assumption.
    + now rewrite exactly_other by assumption.
  - intros Hlen. now rewrite exactly_short by assumption.
Qed.

Lemma year_of_reads_first_four_witness :
  year_of [("datePublished", VStr "2014-11-07")] = Some 2014.
Proof.
  exact (proj1 (year_of_reads_first_four [("datePublished", VStr "2014-11-07")]
                  "2014" "-11-07" eq_refl) eq_refl eq_refl).
Defined.

(** ** What the scan can select *)

Lemma is_movie_object (d : value) :
  is_movie d = true → ∃ o, d = VDict o.
Proof. destruct d; try discriminate. eauto. Qed.

Lemma find_split (l : list value) (d : value) :
  List.find is_movie l = Some d →
  ∃ l1 l2, l = l1 ++ d :: l2
           ∧ Forall (fun x => is_movie x = false) l1 ∧ is_movie d = true.
Proof.
  induction l as [|x l IH]; [discriminate|]. cbn [List.find].
  destruct (is_movie x) eqn:Hx.
  - intros [= <-]. exists [], l. auto.
  - intros (l1 & l2 & -> & Hl1 & Hd)%IH.
    exists (x :: l1), l2. auto.
Qed.

Lemma find_nothing (l : list value) :
  List.find is_movie l = None → Forall (fun x => is_movie x = false) l.
Proof.
  induction l as [|x l IH]; [constructor|]. cbn [List.find].
  destruct (is_movie x) eqn:Hx; [discriminate|]. auto.
Qed.

Lemma block_offers (data : value) :
  Spec.no_movie (Loads data) ∨ ∃ o, Spec.first_movie data o.
Proof.
  destruct data as [| | | | |l|o]; try (left; reflexivity).
  - destruct (List.find is_movie l) as [d|] eqn:Hf.
    + right. destruct (find_split _ _ Hf) as (l1 & l2 & -> & Hl1 & Hd).
      destruct (is_movie_object _ Hd) as [o ->].
      exists o. split; [exact Hd|]. right. eauto.
    + left. now apply find_nothing.
  - destruct (is_movie (VDict o)) eqn:Hm.
    + right. exists o. split; [exact Hm | now left].
    + left. exact Hm.
Qed.

(** X22: the scan of the linked-data blocks ends in one of two ways, on
    every page: either no block offers an object of type Movie or
    CreativeWork and nothing is selected, or the first such object is
    selected.  What is selected is therefore always an object, never a
    list, a string or a number. *)
Theorem scan_selects_first_typed_object (tags : list loads) :
  (scan_tags None tags = None ∧ Forall Spec.no_movie tags)
  ∨ (∃ o, scan_tags None tags = Some (VDict o) ∧ Spec.selected tags o
          ∧ is_movie (VDict o) = true).
Proof.
  assert (H : Forall Spec.no_movie tags ∨ ∃ o, Spec.selected tags o).
  { induction tags as [|t tags IH]; [left; constructor|].
    assert (Ht : Spec.no_movie t ∨ ∃ o, Spec.selected (t :: tags) o).
    { destruct t as [|data]; [left; exact I|].
      destruct (block_offers data) as [Hq|[o Ho]]; [now left|].
      right. exists o, [], data, tags. auto. }
    destruct Ht as [Ht|Ht]; [|now right].
    destruct IH as [IH|[o (before & data & after & -> & Hq & Hm)]].
    - left. now constructor.
    - right. exists o, (t :: before), data, after. auto. }
  destruct H as [Hq|[o Hsel]].
  - left. split; [|exact Hq].
    rewrite <- (app_nil_r tags). now rewrite scan_tags_quiet.
  - right. exists o. split; [now apply scan_tags_selected|].
    split; [exact Hsel|].
    destruct Hsel as (_ & _ & _ & _ & _ & Hm & _). exact Hm.
Qed.
